(** * libforest: [util.h]

    A shallow embedding of [include/libforest/util.h]: the sequence helpers
    of the class [Util] and the class [EfficientEntropyHistogram] with its
    incremental entropy bookkeeping.

    Conventions of the embedding.
    - [size_t] values are natural numbers and [int] values are integers
      ([Z]).  A bin count of the histogram moves by one per call; the signed
      overflow of [histogram[i]++] past [2^31 - 1] is undefined in the
      source and is not written out.  The theorems about long runs of
      [addOne] keep the number of calls below [2^31].
    - [float] values are IEEE 754 binary32 numbers ([spec_float] with a
      24-bit significand).  Every [+], [-], [*], [/] and every conversion
      from [int] is rounded on its own, to nearest with ties to even; a
      product is not fused with the sum that follows it.
    - [fastlog2] comes from [fastlog.h], which is not part of this file; it
      is a parameter of the development, and every evaluation of it is
      recorded in the run of the operation that performs it.  The bit-level
      approximation that the header provides is given as an instance.
    - [BOOST_ASSERT_MSG] comes from [error_handling.h]; a failed assertion
      raises an exception carrying the message, at the point of the check. *)

From stdpp Require Import base list strings.
From Stdlib Require Import ZArith Lia.
From Stdlib Require Import Floats.SpecFloat.

(* ================================================================= *)
(** ** The class [Util] *)

Module Util.
Section Util.

(** The element type of the [template <class T>] members, with its
    [operator!=] (decidable equality) and its [operator>]. *)
Context {T : Type} `{EqDecision T}.
Variable greater : T -> T -> bool.

(** [v1[i] != v2[i]], for an index inside both vectors. *)
Definition differ_at (v1 v2 : list T) (i : nat) : bool :=
  bool_decide (v1 !! i ≠ v2 !! i).

(** [static size_t hammingDist(const std::vector<T> & v1, const std::vector<T> & v2)] *)
Definition hammingDist (v1 v2 : list T) : nat :=
  let result := 0 in
  let result :=
    if bool_decide (length v2 < length v1) then length v1 - length v2
    else if bool_decide (length v1 < length v2) then length v2 - length v1
    else result in
  foldl (fun result i => if differ_at v1 v2 i then S result else result)
        result (seq 0 (length v1 `min` length v2)).

(** The distance as the documentation words it: the difference of the
    lengths plus the number of positions, below the shorter length, where
    the entries differ. *)
Definition hamming_spec (v1 v2 : list T) : nat :=
  (length v1 `max` length v2 - length v1 `min` length v2)
  + length (filter (fun i => v1 !! i ≠ v2 !! i) (seq 0 (length v1 `min` length v2))).

(** One turn of the loop of [argMax]: [if (v[i] > arg) { arg = v[i]; index = i; }] *)
Definition argMax_step (v : list T) (st : T * nat) (i : nat) : T * nat :=
  match v !! i with
  | Some x => if greater x st.1 then (x, i) else st
  | None => st
  end.

(** [static size_t argMax(const std::vector<T> & v)] *)
Definition argMax (v : list T) : nat :=
  match v with
  | [] => 0
  | v0 :: _ => (foldl (argMax_step v) (v0, 0) (seq 1 (length v - 1))).2
  end.

(** What the loop of [argMax] knows after the indices below [k]: the
    running maximum sits at [index], nothing seen so far is greater, and it
    is greater than everything before [index]. *)
Definition argMax_inv (v : list T) (k : nat) (st : T * nat) : Prop :=
  st.2 < k /\
  v !! st.2 = Some st.1 /\
  (forall j x, j < k -> v !! j = Some x -> greater x st.1 = false) /\
  (forall j x, j < st.2 -> v !! j = Some x -> greater st.1 x = true).

End Util.
End Util.

(* ================================================================= *)
(** ** Single-precision floating point *)

(** [float]: IEEE 754 binary32. *)
Definition float : Type := spec_float.
Definition prec : Z := 24.
Definition emax : Z := 128.

Global Instance float_eq_dec : EqDecision float.
Proof. solve_decision. Defined.

(** [x + y], [x - y], [x * y], [x / y] and [-x] on [float]. *)
Definition fadd : float -> float -> float := SFadd prec emax.
Definition fsub : float -> float -> float := SFsub prec emax.
Definition fmul : float -> float -> float := SFmul prec emax.
Definition fdiv : float -> float -> float := SFdiv prec emax.
Definition fopp : float -> float := SFopp.

(** The conversion of an integer to [float], as in [mass += 1] or in
    [entropies[i] = 0]. *)
Definition float_of_int (n : Z) : float := binary_normalize prec emax n 0 false.

(** The [float] with the given 32-bit pattern. *)
Definition float_of_bits (b : Z) : float :=
  let s := Z.testbit b 31 in
  let E := Z.land (Z.shiftr b 23) 0xFF in
  let f := Z.land b 0x007FFFFF in
  if (E =? 0)%Z then
    match f with Zpos m => S754_finite s m (-149) | _ => S754_zero s end
  else if (E =? 255)%Z then
    (if (f =? 0)%Z then S754_infinity s else S754_nan)
  else
    match Z.lor f 0x00800000 with
    | Zpos m => S754_finite s m (E - 150)
    | _ => S754_nan
    end.

(** The 32-bit pattern of a [float] in canonical form. *)
Definition bits_of_float (x : float) : Z :=
  match x with
  | S754_zero s => if s then 0x80000000 else 0
  | S754_infinity s => if s then 0xFF800000 else 0x7F800000
  | S754_nan => 0x7FC00000
  | S754_finite s m e =>
      Z.lor (if s then 0x80000000 else 0)
        (if (0x00800000 <=? Zpos m)%Z
         then Z.lor (Z.shiftl (e + 150) 23) (Z.land (Zpos m) 0x007FFFFF)
         else Zpos m)
  end%Z.

(** The canonical binary32 form of a positive integer below [2^24]: the
    significand is shifted to 24 digits. *)
Definition canon (p : positive) : float :=
  let d := Zpos (digits2_pos p) in
  if (d <? 24)%Z then S754_finite false (Pos.iter xO p (Z.to_pos (24 - d))) (d - 24)
  else S754_finite false p 0.

(* ================================================================= *)
(** ** Exceptions, runs and the state monad of a histogram object *)

(** The exception raised by a failed [BOOST_ASSERT_MSG]. *)
Record AssertionException : Type := mkAssertionException { what : string }.

Global Instance AssertionException_eq_dec : EqDecision AssertionException.
Proof. solve_decision. Defined.

(** Modelled from the spec: the error taxonomy of the specification, which
    [error_handling.h] (missing here) does not let us read off the code. *)
Inductive Condition : Type :=
  | InvalidArgument
  | IndexOutOfRange
  | PreconditionViolation.

Global Instance Condition_eq_dec : EqDecision Condition.
Proof. solve_decision. Defined.

(** Modelled from the spec: which condition of the taxonomy each assertion
    message of [EfficientEntropyHistogram] stands for.  A negative bin count
    is an invalid argument, a bad bin index is out of range, and removing
    from an empty bin violates a precondition. *)
Definition condition_of (e : AssertionException) : option Condition :=
  if decide (what e = "Bin count must be non-negative.") then Some InvalidArgument
  else if decide (what e = "Bin index out of range.") then Some IndexOutOfRange
  else if decide (what e = "Invalid bin bin index.") then Some IndexOutOfRange
  else if decide (what e = "Bin is already empty.") then Some PreconditionViolation
  else None.

(** The private fields of [EfficientEntropyHistogram].  A null array pointer
    is the empty list. *)
Record EfficientEntropyHistogram : Type := mkHistogram {
  bins : Z;
  histogram : list Z;
  mass : float;
  entropies : list float;
  totalEntropy : float
}.

Inductive Outcome (A : Type) : Type :=
  | Return (a : A)
  | Throw (e : AssertionException).
Arguments Return {A} a.
Arguments Throw {A} e.

(** What a call leaves behind: how it ended, the object afterwards, and the
    arguments at which [fastlog2] was evaluated, in order. *)
Record Run (A : Type) : Type := mkRun {
  outcome : Outcome A;
  after : EfficientEntropyHistogram;
  log2_args : list float
}.
Arguments mkRun {A} _ _ _.
Arguments outcome {A} _.
Arguments after {A} _.
Arguments log2_args {A} _.

Definition M (A : Type) : Type := EfficientEntropyHistogram -> Run A.

Global Instance M_ret : MRet M := fun A a h => mkRun (Return a) h [].

Global Instance M_bind : MBind M := fun A B f m h =>
  match m h with
  | mkRun (Return a) h' l =>
      match f a h' with
      | mkRun o h'' l' => mkRun o h'' (l ++ l')
      end
  | mkRun (Throw e) h' l => mkRun (Throw e) h' l
  end.

Definition gets {A : Type} (f : EfficientEntropyHistogram -> A) : M A :=
  fun h => mkRun (Return (f h)) h [].

Definition modify (f : EfficientEntropyHistogram -> EfficientEntropyHistogram) : M unit :=
  fun h => mkRun (Return tt) (f h) [].

Definition throw {A : Type} (e : AssertionException) : M A :=
  fun h => mkRun (Throw e) h [].

(** Modelled from the spec: [BOOST_ASSERT_MSG(cond, msg)] of the missing
    [error_handling.h]; a false condition fails the call at once. *)
Definition BOOST_ASSERT_MSG (cond : bool) (msg : string) : M unit :=
  if cond then mret tt else throw (mkAssertionException msg).

(** [for (int i = 0; i < n; i++) body(i)] *)
Fixpoint for_ (idx : list nat) (body : nat -> M unit) : M unit :=
  match idx with
  | [] => mret tt
  | i :: rest => body i ;; for_ rest body
  end.

Definition returned {A : Type} (r : Run A) : Prop :=
  match outcome r with Return _ => True | Throw _ => False end.

Definition threw {A : Type} (r : Run A) (c : Condition) : Prop :=
  match outcome r with
  | Return _ => False
  | Throw e => condition_of e = Some c
  end.

(* ================================================================= *)
(** ** Field assignments and array cells *)

Definition set_bins (v : Z) (h : EfficientEntropyHistogram) :=
  mkHistogram v (histogram h) (mass h) (entropies h) (totalEntropy h).
Definition set_histogram (v : list Z) (h : EfficientEntropyHistogram) :=
  mkHistogram (bins h) v (mass h) (entropies h) (totalEntropy h).
Definition set_mass (v : float) (h : EfficientEntropyHistogram) :=
  mkHistogram (bins h) (histogram h) v (entropies h) (totalEntropy h).
Definition set_entropies (v : list float) (h : EfficientEntropyHistogram) :=
  mkHistogram (bins h) (histogram h) (mass h) v (totalEntropy h).
Definition set_totalEntropy (v : float) (h : EfficientEntropyHistogram) :=
  mkHistogram (bins h) (histogram h) (mass h) (entropies h) v.

(** [a[i]] as an rvalue.  Reading outside the array is undefined in the
    source; every read of the class sits behind an index assertion or
    inside a loop bounded by [bins]. *)
Definition cell {A : Type} (d : A) (a : list A) (i : Z) : A :=
  default d (a !! Z.to_nat i).

(** [a[i] = v].  Writing outside the array is undefined in the source; the
    list is left as it is. *)
Definition store {A : Type} (a : list A) (i : Z) (v : A) : list A :=
  <[Z.to_nat i := v]> a.

Definition histogram_at (i : Z) : M Z := gets (fun h => cell 0%Z (histogram h) i).
Definition entropies_at (i : Z) : M float :=
  gets (fun h => cell (float_of_int 0) (entropies h) i).
Definition histogram_store (i : Z) (v : Z) : M unit :=
  modify (fun h => set_histogram (store (histogram h) i v) h).
Definition entropies_store (i : Z) (v : float) : M unit :=
  modify (fun h => set_entropies (store (entropies h) i v) h).

(** [totalEntropy += e], [totalEntropy -= e], [mass += d], [mass -= d]: one
    rounded [float] operation each. *)
Definition totalEntropy_add (e : float) : M unit :=
  modify (fun h => set_totalEntropy (fadd (totalEntropy h) e) h).
Definition totalEntropy_sub (e : float) : M unit :=
  modify (fun h => set_totalEntropy (fsub (totalEntropy h) e) h).
Definition mass_add (d : float) : M unit :=
  modify (fun h => set_mass (fadd (mass h) d) h).
Definition mass_sub (d : float) : M unit :=
  modify (fun h => set_mass (fsub (mass h) d) h).

(* ================================================================= *)
(** ** The class [EfficientEntropyHistogram] *)

Section Histogram.

(** [fastlog2] of [fastlog.h]. *)
Variable fastlog2 : float -> float.

(** The indeterminate contents of the cells handed out by [new int[n]] and
    [new float[n]]. *)
Variable uninit_int : nat -> Z.
Variable uninit_float : nat -> float.

(** [#define ENTROPY(p) (-(p)*fastlog2(p))] at the [float] operand [mass]:
    a negation and a rounded product.  The evaluation of [fastlog2] is
    recorded. *)
Definition ENTROPY_value (p : float) : float := fmul (fopp p) (fastlog2 p).
Definition ENTROPY (p : float) : M float :=
  fun h => mkRun (Return (ENTROPY_value p)) h [p].

(** [ENTROPY(p)] at the [int] operand [histogram[i]]: the negation is that
    of [int]; the negated operand and the argument of [fastlog2] are
    converted to [float]. *)
Definition ENTROPY_int_value (n : Z) : float :=
  fmul (float_of_int (- n)) (fastlog2 (float_of_int n)).
Definition ENTROPY_int (n : Z) : M float :=
  fun h => mkRun (Return (ENTROPY_int_value n)) h [float_of_int n].

(** [EfficientEntropyHistogram()] *)
Definition default_histogram : EfficientEntropyHistogram :=
  mkHistogram 0 [] (float_of_int 0) [] (float_of_int 0).

(** [void reset()] *)
Definition reset : M unit :=
  b ← gets bins;
  for_ (seq 0 (Z.to_nat b)) (fun i =>
    histogram_store (Z.of_nat i) 0%Z ;;
    entropies_store (Z.of_nat i) (float_of_int 0)) ;;
  modify (set_totalEntropy (float_of_int 0)) ;;
  modify (set_mass (float_of_int 0)).

(** [void resize(int newBins)] *)
Definition resize (newBins : Z) : M unit :=
  BOOST_ASSERT_MSG (bool_decide (newBins >= 0)%Z) "Bin count must be non-negative." ;;
  b ← gets bins;
  (if bool_decide (newBins ≠ b) then
     modify (set_histogram []) ;;
     modify (set_entropies [])
   else mret tt) ;;
  modify (set_bins newBins) ;;
  if bool_decide (newBins > 0)%Z then
    b' ← gets bins;
    modify (set_histogram (uninit_int <$> seq 0 (Z.to_nat b'))) ;;
    modify (set_entropies (uninit_float <$> seq 0 (Z.to_nat b'))) ;;
    reset
  else mret tt.

(** [EfficientEntropyHistogram(int bins)]: the run of the constructor body
    on the member-initialised object. *)
Definition construct (nbins : Z) : Run unit :=
  resize nbins default_histogram.

(** [int getSize() const] *)
Definition getSize : M Z := gets bins.

(** [int at(const int i) const] *)
Definition at_ (i : Z) : M Z :=
  b ← gets bins;
  BOOST_ASSERT_MSG (bool_decide (i >= 0)%Z && bool_decide (i < b)%Z) "Bin index out of range." ;;
  histogram_at i.

(** [void addOne(const int i)] *)
Definition addOne (i : Z) : M unit :=
  b ← gets bins;
  BOOST_ASSERT_MSG (bool_decide (i >= 0)%Z && bool_decide (i < b)%Z) "Invalid bin bin index." ;;
  (m ← gets mass; e ← ENTROPY m; totalEntropy_add e) ;;
  mass_add (float_of_int 1) ;;
  (m ← gets mass; e ← ENTROPY m; totalEntropy_sub e) ;;
  (n ← histogram_at i; histogram_store i (n + 1)%Z) ;;
  (e ← entropies_at i; totalEntropy_sub e) ;;
  (n ← histogram_at i; e ← ENTROPY_int n; entropies_store i e) ;;
  (e ← entropies_at i; totalEntropy_add e).

(** [void subOne(const int i)] *)
Definition subOne (i : Z) : M unit :=
  b ← gets bins;
  BOOST_ASSERT_MSG (bool_decide (i >= 0)%Z && bool_decide (i < b)%Z) "Invalid bin bin index." ;;
  c ← at_ i;
  BOOST_ASSERT_MSG (bool_decide (c > 0)%Z) "Bin is already empty." ;;
  (m ← gets mass; e ← ENTROPY m; totalEntropy_add e) ;;
  mass_sub (float_of_int 1) ;;
  (m ← gets mass; e ← ENTROPY m; totalEntropy_sub e) ;;
  (n ← histogram_at i; histogram_store i (n - 1)%Z) ;;
  (e ← entropies_at i; totalEntropy_sub e) ;;
  n ← histogram_at i;
  if bool_decide (n < 1)%Z then
    entropies_store i (float_of_int 0)
  else
    (n ← histogram_at i; e ← ENTROPY_int n; entropies_store i e) ;;
    (e ← entropies_at i; totalEntropy_add e).

(** [float getMass() const] *)
Definition getMass : M float := gets mass.

(** [float getEntropy() const] *)
Definition getEntropy : M float := gets totalEntropy.

(** The loop of [isPure] over the remaining indices, with its early
    [return false] and the [return true] behind the loop. *)
Fixpoint isPure_loop (hist : list Z) (idx : list nat) (nonPure : bool) : bool :=
  match idx with
  | [] => true
  | i :: rest =>
      if bool_decide (cell 0%Z hist (Z.of_nat i) > 0)%Z then
        if nonPure then false else isPure_loop hist rest true
      else isPure_loop hist rest nonPure
  end.

(** [bool isPure() const] *)
Definition isPure : M bool :=
  b ← gets bins;
  hist ← gets histogram;
  mret (isPure_loop hist (seq 0 (Z.to_nat b)) false).

(* ----------------------------------------------------------------- *)
(** *** Observations and call sequences *)

(** The value a call returned ([d] if it threw). *)
Definition value {A : Type} (d : A) (r : Run A) : A :=
  match outcome r with Return a => a | Throw _ => d end.

(** The bin indices [0 .. bins-1]. *)
Definition indices (h : EfficientEntropyHistogram) : list Z :=
  Z.of_nat <$> seq 0 (Z.to_nat (bins h)).

Definition at_value (h : EfficientEntropyHistogram) (i : Z) : Z := value 0%Z (at_ i h).

Definition sumZ (l : list Z) : Z := foldr Z.add 0%Z l.

(** The sum of [at(i)] over all bins. *)
Definition sum_at (h : EfficientEntropyHistogram) : Z := sumZ (at_value h <$> indices h).

(** The entropy contribution as the specification defines it, of a count:
    [-n * fastlog2(n)] for [n > 0], and [0] for [n = 0]. *)
Definition contribution (n : Z) : float :=
  if bool_decide (0 < n)%Z then fmul (float_of_int (- n)) (fastlog2 (float_of_int n))
  else float_of_int 0.

(** The same of a mass, which is a [float]. *)
Definition contribution_of_mass (p : float) : float :=
  match p with
  | S754_zero _ => float_of_int 0
  | _ => fmul (fopp p) (fastlog2 p)
  end.

(** The sum of [contribution(at(i))] over all bins, added up in [float]
    from the last bin to the first. *)
Definition sum_contributions (h : EfficientEntropyHistogram) : float :=
  foldr fadd (float_of_int 0) ((fun i => contribution (at_value h i)) <$> indices h).

(** The number of bins with a nonzero count. *)
Definition nonzero_bins (h : EfficientEntropyHistogram) : nat :=
  length (filter (fun i => at_value h i ≠ 0%Z) (indices h)).

(** The state-changing public methods. *)
Inductive Call : Type :=
  | AddOne (i : Z)
  | SubOne (i : Z)
  | Reset
  | Resize (newBins : Z).

Definition call (c : Call) : M unit :=
  match c with
  | AddOne i => addOne i
  | SubOne i => subOne i
  | Reset => reset
  | Resize newBins => resize newBins
  end.

(** A valid [addOne]/[subOne] call: the bin index is in range, and [subOne]
    finds a positive count. *)
Definition valid_update (h : EfficientEntropyHistogram) (c : Call) : Prop :=
  match c with
  | AddOne i => (0 <= i < bins h)%Z
  | SubOne i => (0 <= i < bins h)%Z /\ (0 < at_value h i)%Z
  | _ => False
  end.

(** The runs of a sequence of calls, each on the object the previous one
    left behind. *)
Fixpoint runs (h : EfficientEntropyHistogram) (cs : list Call) : list (Run unit) :=
  match cs with
  | [] => []
  | c :: cs' => let r := call c h in r :: runs (after r) cs'
  end.

(** The object after a sequence of calls. *)
Definition final (h : EfficientEntropyHistogram) (cs : list Call) : EfficientEntropyHistogram :=
  foldl (fun h c => after (call c h)) h cs.

Fixpoint valid_updates (h : EfficientEntropyHistogram) (cs : list Call) : Prop :=
  match cs with
  | [] => True
  | c :: cs' => valid_update h c /\ valid_updates (after (call c h)) cs'
  end.

(** The states an object can be in: constructed, then used through its
    public methods (a copy is in the state of its original). *)
Inductive reachable : EfficientEntropyHistogram -> Prop :=
  | reachable_default : reachable default_histogram
  | reachable_construct nbins :
      returned (construct nbins) -> reachable (after (construct nbins))
  | reachable_call h c : reachable h -> reachable (after (call c h)).

(* ----------------------------------------------------------------- *)
(** *** Representation invariants *)

(** What [entropies[i]] caches for a count [n]. *)
Definition bin_entropy (n : Z) : float :=
  if bool_decide (n < 1)%Z then float_of_int 0 else ENTROPY_int_value n.

(** The arrays have [bins] cells, the counts are not negative, and the
    cache holds the contribution of every count. *)
Definition wf (h : EfficientEntropyHistogram) : Prop :=
  (0 <= bins h)%Z /\
  length (histogram h) = Z.to_nat (bins h) /\
  Forall (fun c => 0 <= c)%Z (histogram h) /\
  entropies h = bin_entropy <$> histogram h.

(** [mass] is the sum of the counts, and the sum is at most [k]. *)
Definition mass_counted (k : Z) (h : EfficientEntropyHistogram) : Prop :=
  mass h = float_of_int (sumZ (histogram h)) /\ (sumZ (histogram h) <= k)%Z.

(** The scalars that [addOne(i)] and [subOne(i)] read and write are the
    same in [h], at bin [i], and in [h1], at bin [j]. *)
Definition same_bin (h : EfficientEntropyHistogram) (i : Z)
    (h1 : EfficientEntropyHistogram) (j : Z) : Prop :=
  mass h = mass h1 /\ totalEntropy h = totalEntropy h1 /\
  cell 0%Z (histogram h) i = cell 0%Z (histogram h1) j /\
  cell (float_of_int 0) (entropies h) i = cell (float_of_int 0) (entropies h1) j.

(** [n] times [addOne(0)] on [h], checking after each call that the total
    entropy is [+0]. *)
Fixpoint entropy_stays_zero (n : nat) (h : EfficientEntropyHistogram) : bool :=
  match n with
  | O => true
  | S n' =>
      let h' := after (addOne 0 h) in
      bool_decide (totalEntropy h' = float_of_int 0) && entropy_stays_zero n' h'
  end.

End Histogram.

(* ----------------------------------------------------------------- *)
(** *** Instances to run the model on *)

(** Modelled from the spec: [fastlog2] of the missing [fastlog.h], which the
    specification describes as a fast approximation of the base-2
    logarithm.  This is the approximation of the fastapprox library that
    the header carries:
    [union { float f; uint32_t i; } vx = { x };
     union { uint32_t i; float f; } mx = { (vx.i & 0x007FFFFF) | 0x3f000000 };
     float y = vx.i;  y *= 1.1920928955078125e-7f;
     return y - 124.22551499f - 1.498030302f * mx.f
              - 1.72587999f / (0.3520887068f + mx.f);]
    with the constants written as their bit patterns. *)
Definition fastlog2_approx (x : float) : float :=
  let vx_i := bits_of_float x in
  let mx_f := float_of_bits (Z.lor (Z.land vx_i 0x007FFFFF) 0x3f000000) in
  let y := float_of_int vx_i in
  let y := fmul y (float_of_bits 0x34000000) in
  fsub (fsub (fsub y (float_of_bits 0x42f87377))
             (fmul (float_of_bits 0x3fbfbf75) mx_f))
       (fdiv (float_of_bits 0x3fdce9a3) (fadd (float_of_bits 0x3eb444f9) mx_f)).

(** A logarithm that is [-infinity] at zero, as the exact base-2 logarithm
    is, and the approximation elsewhere. *)
Definition log2_infinite_at_zero (x : float) : float :=
  match x with
  | S754_zero _ => S754_infinity true
  | _ => fastlog2_approx x
  end.

(** Some contents for freshly allocated cells. *)
Definition junk_int (k : nat) : Z := (Z.of_nat k + 41)%Z.
Definition junk_float (k : nat) : float := float_of_int (Z.of_nat k - 7).
(* ================================================================= *)
(** ** The rest of [util.h]: permutations, copies *)

Module UtilPermutation.

(** The loop of [isValidPermutation] over the remaining indices, with the
    flags [check] of the images met so far. *)
Fixpoint isValidPermutation_loop (sigma : list Z) (idx : list nat) (check : list bool) : bool :=
  match idx with
  | [] => true
  | i :: rest =>
      let s := cell 0%Z sigma (Z.of_nat i) in
      if bool_decide (s < 0)%Z || bool_decide (s >= Z.of_nat (length sigma))%Z then false
      else if cell false check s then false
      else isValidPermutation_loop sigma rest (store check s true)
  end.

(** [static bool isValidPermutation(const std::vector<int> & sigma) throw()] *)
Definition isValidPermutation (sigma : list Z) : bool :=
  isValidPermutation_loop sigma (seq 0 (length sigma)) (replicate (length sigma) false).

Section Permute.

Context {T : Type}.

(** [T()], the value [std::vector<T>::resize] fills new cells with. *)
Variable value_init : T.

(** [out.resize(n)] *)
Definition vector_resize (out : list T) (n : nat) : list T :=
  take n out ++ replicate (n - length out) value_init.

(** [static void permute(const std::vector<int> & permutation,
    const std::vector<T> & in, std::vector<T> & out) throw (AssertionException)]:
    how the call ends and the vector [out] afterwards.  [same_object] tells
    whether [in] and [out] are one vector ([&in == &out]). *)
Definition permute (permutation : list Z) (in_ out : list T) (same_object : bool)
    : Outcome unit * list T :=
  if negb (bool_decide (length permutation = length in_)) then
    (Throw (mkAssertionException "The permutation has invalid length."), out)
  else if same_object then
    (Throw (mkAssertionException
              "The input vector must not be the same as the output vector."), out)
  else if negb (isValidPermutation permutation) then
    (Throw (mkAssertionException
              "The given vector does not encode a valid permutation."), out)
  else
    (Return tt,
     foldl (fun out i =>
              store out (cell 0%Z permutation (Z.of_nat i))
                        (cell value_init in_ (Z.of_nat i)))
           (vector_resize out (length in_))
           (seq 0 (length permutation))).

End Permute.

(** The permutation [i -> tau(sigma(i))], as a list of images. *)
Definition compose (tau sigma : list Z) : list Z :=
  (fun s => cell 0%Z tau s) <$> sigma.

(** [sigma] is in [S_N], [N] its length: every image lies in [[N]] and no
    image has two points in the domain. *)
Definition in_S_N (sigma : list Z) : Prop :=
  Forall (fun s => 0 <= s < Z.of_nat (length sigma))%Z sigma /\ NoDup sigma.

End UtilPermutation.

Section HistogramCopy.

Variable uninit_int : nat -> Z.
Variable uninit_float : nat -> float.

(** [EfficientEntropyHistogram(const EfficientEntropyHistogram & other)]:
    the run of the constructor body on the object the delegated default
    constructor made. *)
Definition copy_construct (other : EfficientEntropyHistogram) : Run unit :=
  (resize uninit_int uninit_float (bins other) ;;
   b ← gets bins;
   for_ (seq 0 (Z.to_nat b)) (fun i =>
     histogram_store (Z.of_nat i) (cell 0%Z (histogram other) (Z.of_nat i)) ;;
     entropies_store (Z.of_nat i) (cell (float_of_int 0) (entropies other) (Z.of_nat i))) ;;
   modify (set_totalEntropy (totalEntropy other)) ;;
   modify (set_mass (mass other))) default_histogram.

(** [EfficientEntropyHistogram & operator= (const EfficientEntropyHistogram &other)];
    [self] tells whether [other] is the object assigned to ([this == &other]). *)
Definition operator_assign (other : EfficientEntropyHistogram) (self : bool) : M unit :=
  if negb self then
    resize uninit_int uninit_float (bins other) ;;
    b ← gets bins;
    for_ (seq 0 (Z.to_nat b)) (fun i =>
      histogram_store (Z.of_nat i) (cell 0%Z (histogram other) (Z.of_nat i)) ;;
      entropies_store (Z.of_nat i) (cell (float_of_int 0) (entropies other) (Z.of_nat i))) ;;
    modify (set_totalEntropy (totalEntropy other)) ;;
    modify (set_mass (mass other))
  else mret tt.

End HistogramCopy.

(** The arrays of an object have [bins] cells each. *)
Definition sized (h : EfficientEntropyHistogram) : Prop :=
  (0 <= bins h)%Z /\
  length (histogram h) = Z.to_nat (bins h) /\
  length (entropies h) = Z.to_nat (bins h).

(* ================================================================= *)
(** * Properties of [Util] *)

Module UtilTheory.
Import Util.

Section Hamming.

Context {T : Type} `{EqDecision T}.
Implicit Types v : list T.

(** The loop of [hammingDist] adds one per differing position. *)
Lemma hamming_loop v1 v2 idx r0 :
  foldl (fun result i => if differ_at v1 v2 i then S result else result) r0 idx
  = r0 + length (filter (fun i => v1 !! i ≠ v2 !! i) idx).
Proof.
  revert r0. induction idx as [|i idx IH]; intros r0; simpl.
  - lia.
  - rewrite IH, filter_cons. unfold differ_at.
    destruct (decide (v1 !! i ≠ v2 !! i)) as [Hd|Hd].
    + rewrite bool_decide_eq_true_2 by done. simpl. lia.
    + rewrite bool_decide_eq_false_2 by done. lia.
Qed.

Lemma hammingDist_unfold v1 v2 : hammingDist v1 v2 = hamming_spec v1 v2.
Proof.
  unfold hammingDist, hamming_spec. rewrite hamming_loop. f_equal.
  repeat case_bool_decide; lia.
Qed.

Lemma hamming_spec_sym v1 v2 : hamming_spec v1 v2 = hamming_spec v2 v1.
Proof.
  unfold hamming_spec.
  rewrite (Nat.max_comm (length v2)), (Nat.min_comm (length v2)). f_equal. f_equal.
  apply list_filter_iff. intros i. split; intros Hne Heq; by apply Hne.
Qed.

Lemma filter_length_0 (P : nat -> Prop) `{!forall i, Decision (P i)} idx :
  length (filter P idx) = 0 -> Forall (fun i => ~ P i) idx.
Proof.
  induction idx as [|i idx IH]; intros Hlen; [constructor|].
  rewrite filter_cons in Hlen. destruct (decide (P i)); [done|].
  constructor; auto.
Qed.

Lemma hamming_spec_0 v1 v2 : hamming_spec v1 v2 = 0 <-> v1 = v2.
Proof.
  unfold hamming_spec. split.
  - intros Hz.
    assert (Hlen : length v1 = length v2) by lia.
    assert (Hf : length (filter (fun i => v1 !! i ≠ v2 !! i)
                   (seq 0 (length v1 `min` length v2))) = 0) by lia.
    apply filter_length_0 in Hf. rewrite Forall_forall in Hf.
    apply list_eq. intros i.
    destruct (decide (i < length v1)) as [Hi|Hi].
    + destruct (decide (v1 !! i = v2 !! i)) as [|Hne]; [done|].
      exfalso. apply (Hf i); [|done]. apply elem_of_seq. lia.
    + rewrite !lookup_ge_None_2 by lia. done.
  - intros ->. rewrite Nat.max_id, Nat.min_id, Nat.sub_diag. simpl.
    induction (seq 0 (length v2)) as [|i idx IH]; [done|].
    rewrite filter_cons_False; [exact IH|]. intros Hne. by apply Hne.
Qed.

(** C9. [Util::hammingDist(v1, v2)] is the absolute difference of the two
    lengths plus the number of indices below the smaller length at which
    the vectors differ; it is defined on vectors of unequal lengths, it is
    symmetric, and it is [0] exactly when the vectors are equal. *)
Theorem hammingDist_spec v1 v2 :
  hammingDist v1 v2 = hamming_spec v1 v2 /\
  hammingDist v1 v2 = hammingDist v2 v1 /\
  (hammingDist v1 v2 = 0 <-> v1 = v2).
Proof.
  split; [apply hammingDist_unfold|]. split.
  - rewrite !hammingDist_unfold. apply hamming_spec_sym.
  - rewrite hammingDist_unfold. apply hamming_spec_0.
Qed.

End Hamming.

Section ArgMax.

Context {T : Type}.
Variable greater : T -> T -> bool.

Hypothesis greater_irrefl : forall x, greater x x = false.
Hypothesis greater_trans :
  forall x y z, greater x y = true -> greater y z = true -> greater x z = true.
Hypothesis greater_total :
  forall x y, greater x y = false -> greater y x = false -> x = y.

Lemma argMax_step_inv v k st :
  k < length v -> argMax_inv greater v k st -> argMax_inv greater v (S k) (argMax_step greater v st k).
Proof.
  intros Hk (Hidx & Harg & Hmax & Hfirst). unfold argMax_step.
  destruct (lookup_lt_is_Some_2 v k Hk) as [x Hx]. rewrite Hx.
  destruct (greater x st.1) eqn:Hgt.
  - repeat split; simpl; [lia|done| |].
    + intros j y Hj Hy. destruct (decide (j = k)) as [->|Hne].
      * rewrite Hx in Hy. injection Hy as <-. apply greater_irrefl.
      * destruct (greater y x) eqn:Hyx; [|done].
        rewrite <- (Hmax j y); [|lia|done]. symmetry. eauto.
    + intros j y Hj Hy. destruct (greater x y) eqn:Hxy; [done|].
      assert (Hy' : greater y st.1 = false) by (apply (Hmax j); [lia|done]).
      destruct (greater y x) eqn:Hyx.
      * rewrite (greater_trans _ _ _ Hyx Hgt) in Hy'. done.
      * rewrite (greater_total _ _ Hxy Hyx), Hy' in Hgt. done.
  - repeat split; [lia|done| |done].
    intros j y Hj Hy. destruct (decide (j = k)) as [->|Hne].
    + rewrite Hx in Hy. by injection Hy as <-.
    + apply (Hmax j); [lia|done].
Qed.

Lemma argMax_loop_inv v st m :
  S m <= length v -> argMax_inv greater v 1 st ->
  argMax_inv greater v (S m) (foldl (argMax_step greater v) st (seq 1 m)).
Proof.
  induction m as [|m IH]; intros Hm Hst; [done|].
  rewrite seq_S, foldl_app. simpl. apply argMax_step_inv; [lia|]. apply IH; [lia|done].
Qed.

(** C10. On a non-empty vector [Util::argMax] returns the smallest index of
    a maximal element: no entry is greater than the entry there, and that
    entry is greater than every entry before it.  On the empty vector it
    returns [0]. *)
Theorem argMax_spec (v : list T) :
  (v ≠ [] ->
   exists m, v !! argMax greater v = Some m /\
     (forall j x, v !! j = Some x -> greater x m = false) /\
     (forall j x, j < argMax greater v -> v !! j = Some x -> greater m x = true)) /\
  argMax greater [] = 0.
Proof.
  split; [|done]. intros Hne. destruct v as [|v0 v']; [done|].
  pose proof (argMax_loop_inv (v0 :: v') (v0, 0) (length v')) as Hinv.
  unfold argMax. replace (length (v0 :: v') - 1) with (length v') by (simpl; lia).
  destruct Hinv as (Hidx & Harg & Hmax & Hfirst); [simpl; lia| |].
  - unfold argMax_inv. simpl. split; [lia|]. split; [done|]. split; [|intros; lia].
    intros j x Hj Hx. assert (j = 0) as -> by lia. simpl in Hx.
    injection Hx as <-. apply greater_irrefl.
  - eexists. split; [exact Harg|]. split; [|exact Hfirst].
    intros j x Hx. apply (Hmax j); [|done].
    apply lookup_lt_Some in Hx. simpl in Hx. lia.
Qed.

End ArgMax.
End UtilTheory.

(** The three order laws hold for [operator>] of [int], and the theorem
    applies to a concrete vector with a repeated maximum. *)
Lemma argMax_spec_witness :
  exists m, [3; 7; 2; 7; 5]%Z !! Util.argMax Z.gtb [3; 7; 2; 7; 5]%Z = Some m /\
     (forall j x, [3; 7; 2; 7; 5]%Z !! j = Some x -> Z.gtb x m = false) /\
     (forall j x, j < Util.argMax Z.gtb [3; 7; 2; 7; 5]%Z ->
                  [3; 7; 2; 7; 5]%Z !! j = Some x -> Z.gtb m x = true).
Proof.
  apply (UtilTheory.argMax_spec Z.gtb); [intros; lia..|done].
Defined.
(* ================================================================= *)
(** * Small integers in binary32 *)

Section SmallIntegers.

Lemma iter_pos_iter {A : Type} (f : A -> A) n x : iter_pos f n x = Pos.iter f x n.
Proof.
  revert x. induction n as [n IH|n IH|]; intros x; simpl.
  - by rewrite !IH, !Pos.iter_swap.
  - by rewrite !IH.
  - done.
Qed.

Lemma shr_iter_xO n p :
  iter_pos shr_1 n (Build_shr_record (Zpos (Pos.iter xO p n)) false false)
  = Build_shr_record (Zpos p) false false.
Proof.
  rewrite iter_pos_iter. revert p. induction n as [|n IH] using Pos.peano_ind; intros p.
  - reflexivity.
  - rewrite Pos.iter_succ_r. rewrite Pos.iter_succ. simpl. apply IH.
Qed.

Lemma digits_iter_xO n p :
  digits2_pos (Pos.iter xO p n) = (digits2_pos p + n)%positive.
Proof.
  induction n as [|n IH] using Pos.peano_ind.
  - simpl. lia.
  - rewrite Pos.iter_succ. simpl. rewrite IH. lia.
Qed.

Lemma Zpos_iter_xO n p : Zpos (Pos.iter xO p n) = (Zpos p * 2 ^ Zpos n)%Z.
Proof.
  induction n as [|n IH] using Pos.peano_ind.
  - simpl. lia.
  - rewrite Pos.iter_succ, Pos2Z.inj_xO, IH, Pos2Z.inj_succ, Z.pow_succ_r by lia. lia.
Qed.

Lemma digits2_size p : digits2_pos p = Pos.size p.
Proof. induction p as [p IH|p IH|]; simpl; by rewrite ?IH. Qed.

Lemma digits_small p : (Zpos p < 2 ^ 24)%Z -> (Zpos (digits2_pos p) <= 24)%Z.
Proof.
  intros Hp. rewrite digits2_size. pose proof (Pos.size_le p) as Hle.
  destruct (Z.le_gt_cases (Zpos (Pos.size p)) 24) as [|Hgt]; [done|exfalso].
  assert (2 ^ 25 <= 2 ^ Zpos (Pos.size p))%Z by (apply Z.pow_le_mono_r; lia).
  assert (Zpos (2 ^ Pos.size p) <= Zpos p~0)%Z by lia.
  rewrite Pos2Z.inj_pow in *. lia.
Qed.

Lemma shl_align_left m ex ex' :
  (ex' < ex)%Z -> shl_align m ex ex' = (Pos.iter xO m (Z.to_pos (ex - ex')), ex').
Proof.
  intros H. unfold shl_align. destruct (ex' - ex)%Z as [|d|d] eqn:Hd; try lia.
  do 2 f_equal. lia.
Qed.

Lemma shl_align_id m ex ex' : (ex <= ex')%Z -> shl_align m ex ex' = (m, ex).
Proof.
  intros H. unfold shl_align. destruct (ex' - ex)%Z as [|d|d] eqn:Hd; try done. lia.
Qed.

Lemma shr_fexp_eq m e l s :
  (fexp prec emax (Zdigits2 m + e) - e = s)%Z ->
  shr_fexp prec emax m e l = shr (shr_record_of_loc m l) e s.
Proof. intros <-. reflexivity. Qed.

Lemma fexp_small d : (-125 <= d)%Z -> fexp prec emax d = (d - 24)%Z.
Proof. intros Hd. unfold fexp, emin, prec, emax. lia. Qed.

(** Rounding a 24-digit mantissa at an exponent in range leaves it. *)
Lemma round_aux_canonical m e :
  Zpos (digits2_pos m) = 24%Z -> (-149 <= e <= 104)%Z ->
  binary_round_aux prec emax false (Zpos m) e loc_Exact = S754_finite false m e.
Proof.
  intros Hd He. unfold binary_round_aux.
  rewrite (shr_fexp_eq _ _ _ 0) by (cbn [Zdigits2]; rewrite fexp_small; lia).
  cbn [shr shr_record_of_loc shr_m loc_of_shr_record round_nearest_even].
  rewrite (shr_fexp_eq _ _ _ 0) by (cbn [Zdigits2]; rewrite fexp_small; lia).
  cbn [shr shr_record_of_loc shr_m].
  unfold emax, prec. destruct (Z.leb_spec e (128 - 24)); [done|lia].
Qed.

Lemma float_of_int_canon p :
  (Zpos p < 2 ^ 24)%Z -> float_of_int (Zpos p) = canon p.
Proof.
  intros Hp. pose proof (digits_small p Hp) as Hd.
  unfold float_of_int, binary_normalize, binary_round, canon.
  rewrite fexp_small by lia.
  destruct (Z.ltb_spec (Zpos (digits2_pos p)) 24) as [Hlt|Hge].
  - rewrite shl_align_left by lia.
    replace (0 - (Zpos (digits2_pos p) + 0 - 24))%Z with (24 - Zpos (digits2_pos p))%Z by lia.
    replace (Zpos (digits2_pos p) + 0 - 24)%Z with (Zpos (digits2_pos p) - 24)%Z by lia.
    apply round_aux_canonical; [|lia]. rewrite digits_iter_xO. lia.
  - rewrite shl_align_id by lia.
    apply round_aux_canonical; lia.
Qed.

(** Rounding an integer written with [n >= 23] trailing zero bits. *)
Lemma binary_round_scaled_gen p n :
  (Zpos p < 2 ^ 24)%Z -> (23 <= Zpos n)%Z ->
  binary_round prec emax false (Pos.iter xO p n) (Z.neg n) = canon p.
Proof.
  intros Hp Hn. pose proof (digits_small p Hp) as Hd.
  unfold binary_round. rewrite digits_iter_xO, fexp_small by lia.
  rewrite shl_align_id by lia.
  unfold binary_round_aux.
  set (d := digits2_pos p) in *.
  destruct (decide (Zpos d + Zpos n - 24 = 0)%Z) as [Hs0|Hs0].
  - (* n = 23 and d = 1: no shift *)
    rewrite (shr_fexp_eq _ _ _ 0)
      by (cbn [Zdigits2]; rewrite digits_iter_xO, fexp_small; fold d; lia).
    cbn [shr shr_record_of_loc shr_m loc_of_shr_record round_nearest_even].
    rewrite (shr_fexp_eq _ _ _ 0)
      by (cbn [Zdigits2]; rewrite digits_iter_xO, fexp_small; fold d; lia).
    cbn [shr shr_record_of_loc shr_m].
    unfold canon. fold d.
    destruct (Z.ltb_spec (Zpos d) 24); [|lia].
    replace (Z.to_pos (24 - Zpos d)) with n by lia.
    replace (Zpos d - 24)%Z with (Z.neg n) by lia.
    unfold emax, prec. destruct (Z.leb_spec (Z.neg n) (128 - 24)); [done|lia].
  - set (s := Z.to_pos (Zpos d + Zpos n - 24)).
    rewrite (shr_fexp_eq _ _ _ (Zpos s))
      by (cbn [Zdigits2]; rewrite digits_iter_xO, fexp_small; fold d; lia).
    cbn [shr shr_record_of_loc].
    unfold canon. fold d.
    destruct (Z.ltb_spec (Zpos d) 24) as [Hlt|Hge].
    + set (c := Z.to_pos (24 - Zpos d)).
      assert (n = (s + c)%positive) as Hnsc by lia.
      assert (Hshift : iter_pos shr_1 s
                (Build_shr_record (Zpos (Pos.iter xO p n)) false false)
              = Build_shr_record (Zpos (Pos.iter xO p c)) false false)
        by (rewrite Hnsc, Pos.iter_add; apply shr_iter_xO).
      rewrite Hshift.
      cbn [shr_m loc_of_shr_record round_nearest_even].
      rewrite (shr_fexp_eq _ _ _ 0)
        by (cbn [Zdigits2]; rewrite digits_iter_xO, fexp_small; fold d; lia).
      cbn [shr shr_record_of_loc shr_m].
      replace (Z.neg n + Zpos s)%Z with (Zpos d - 24)%Z by lia.
      unfold emax, prec. destruct (Z.leb_spec (Zpos d - 24) (128 - 24)); [done|lia].
    + assert (n = s) as Hns by lia.
      assert (Hshift : iter_pos shr_1 s
                (Build_shr_record (Zpos (Pos.iter xO p n)) false false)
              = Build_shr_record (Zpos p) false false)
        by (rewrite Hns; apply shr_iter_xO).
      rewrite Hshift.
      cbn [shr_m loc_of_shr_record round_nearest_even].
      rewrite (shr_fexp_eq _ _ _ 0)
        by (cbn [Zdigits2]; rewrite fexp_small; fold d; lia).
      cbn [shr shr_record_of_loc shr_m].
      replace (Z.neg n + Zpos s)%Z with 0%Z by lia.
      unfold emax, prec. destruct (Z.leb_spec 0 (128 - 24)); [done|lia].
Qed.

Lemma binary_round_scaled p :
  (Zpos p < 2 ^ 24)%Z ->
  binary_round prec emax false (Pos.iter xO p 23) (-23) = canon p.
Proof. intros Hp. by apply (binary_round_scaled_gen p 23). Qed.

(** The mantissa of a canonical small integer, aligned at exponent [-23]. *)
Lemma canon_aligned p :
  (Zpos p < 2 ^ 24)%Z ->
  exists m e, canon p = S754_finite false m e /\ (-23 <= e <= 0)%Z /\
              fst (shl_align m e (-23)) = Pos.iter xO p 23.
Proof.
  intros Hp. pose proof (digits_small p Hp) as Hd. unfold canon.
  set (d := digits2_pos p) in *.
  destruct (Z.ltb_spec (Zpos d) 24) as [Hlt|Hge].
  - eexists _, _. split; [reflexivity|]. split; [lia|].
    destruct (decide (d = 1%positive)) as [H1|H1].
    + rewrite shl_align_id by lia. cbn [fst]. f_equal. lia.
    + rewrite shl_align_left by lia. cbn [fst].
      rewrite <- Pos.iter_add. f_equal. lia.
  - eexists _, _. split; [reflexivity|]. split; [lia|].
    rewrite shl_align_left by lia. reflexivity.
Qed.

Lemma iter_xO_add n p q :
  (Pos.iter xO p n + Pos.iter xO q n)%positive = Pos.iter xO (p + q)%positive n.
Proof.
  induction n as [|n IH] using Pos.peano_ind; [reflexivity|].
  by rewrite !Pos.iter_succ, <- IH.
Qed.

(** [mass += 1] is exact below [2^24]. *)
Lemma fadd_one k :
  (0 <= k < 2 ^ 24)%Z ->
  fadd (float_of_int k) (float_of_int 1) = float_of_int (k + 1).
Proof.
  intros Hk. destruct k as [|p|p]; [reflexivity| |lia].
  destruct (decide (Zpos p + 1 = 2 ^ 24)%Z) as [Hmax|Hmax].
  - assert (p = 16777215%positive) as -> by lia. vm_compute. reflexivity.
  - rewrite float_of_int_canon by lia.
    destruct (canon_aligned p) as (m & e & -> & He & Hal); [lia|].
    change (float_of_int 1) with (S754_finite false 8388608 (-23)).
    unfold fadd, SFadd.
    replace (Z.min e (-23)) with (-23)%Z by lia.
    rewrite Hal. rewrite shl_align_id by lia.
    cbn [fst cond_Zopp Z.add].
    change 8388608%positive with (Pos.iter xO 1%positive 23).
    rewrite <- Pos2Z.inj_add, iter_xO_add. cbn [binary_normalize].
    rewrite binary_round_scaled by lia.
    replace (Zpos p + 1)%Z with (Zpos (p + 1)) by lia.
    rewrite float_of_int_canon by lia. reflexivity.
Qed.

Lemma iter_xO_sub n p q :
  (q < p)%positive ->
  (Zpos (Pos.iter xO p n) - Zpos (Pos.iter xO q n))%Z = Zpos (Pos.iter xO (p - q)%positive n).
Proof. intros Hlt. rewrite !Zpos_iter_xO. nia. Qed.

(** [mass -= 1] is exact up to [2^24]. *)
Lemma fsub_one k :
  (0 < k <= 2 ^ 24)%Z ->
  fsub (float_of_int k) (float_of_int 1) = float_of_int (k - 1).
Proof.
  intros Hk. destruct k as [|p|p]; [lia| |lia].
  destruct (decide (Zpos p = 2 ^ 24)%Z) as [Hmax|Hmax].
  - assert (p = 16777216%positive) as -> by lia. vm_compute. reflexivity.
  - destruct (decide (p = 1%positive)) as [->|H1]; [reflexivity|].
    rewrite float_of_int_canon by lia.
    destruct (canon_aligned p) as (m & e & -> & He & Hal); [lia|].
    change (float_of_int 1) with (S754_finite false 8388608 (-23)).
    unfold fsub, SFsub.
    replace (Z.min e (-23)) with (-23)%Z by lia.
    rewrite Hal. rewrite shl_align_id by lia.
    cbn [fst cond_Zopp].
    change 8388608%positive with (Pos.iter xO 1%positive 23).
    rewrite iter_xO_sub by lia. cbn [binary_normalize].
    rewrite binary_round_scaled by lia.
    replace (Zpos p - 1)%Z with (Zpos (p - 1)) by lia.
    rewrite float_of_int_canon by lia. reflexivity.
Qed.

(** From [2^24] on, [mass += 1] leaves the mass as it is: [2^24 + 1] is
    not a binary32 number and the sum rounds back to [2^24]. *)
Lemma fadd_one_saturated :
  fadd (float_of_int (2 ^ 24)) (float_of_int 1) = float_of_int (2 ^ 24).
Proof. vm_compute. reflexivity. Qed.

Lemma fsub_one_saturated :
  fsub (float_of_int (2 ^ 24)) (float_of_int 1) = float_of_int (2 ^ 24 - 1).
Proof. vm_compute. reflexivity. Qed.

Lemma float_of_int_inj_small j k :
  (0 <= j < 2 ^ 24)%Z -> (0 <= k < 2 ^ 24)%Z ->
  float_of_int j = float_of_int k -> j = k.
Proof.
  intros Hj Hk.
  assert (Hc : forall p q, (Zpos p < 2 ^ 24)%Z -> (Zpos q < 2 ^ 24)%Z ->
                           canon p = canon q -> p = q).
  { intros p q Hp Hq. unfold canon.
    pose proof (digits_small p Hp). pose proof (digits_small q Hq).
    destruct (Z.ltb_spec (Zpos (digits2_pos p)) 24), (Z.ltb_spec (Zpos (digits2_pos q)) 24);
      intros Heq; [|injection Heq; intros; lia..|by injection Heq].
    injection Heq as Hm He.
    assert (digits2_pos p = digits2_pos q) as Hd by lia.
    rewrite Hd in Hm.
    assert (Zpos (Pos.iter xO p (Z.to_pos (24 - Zpos (digits2_pos q))))
            = Zpos (Pos.iter xO q (Z.to_pos (24 - Zpos (digits2_pos q))))) as Hz by congruence.
    rewrite !Zpos_iter_xO in Hz.
    assert (0 < 2 ^ Zpos (Z.to_pos (24 - Zpos (digits2_pos q))))%Z by (apply Z.pow_pos_nonneg; lia).
    nia. }
  destruct j as [|p|p], k as [|q|q]; try lia; try done.
  - rewrite (float_of_int_canon q) by lia. unfold canon. by case_match.
  - rewrite (float_of_int_canon p) by lia. unfold canon. by case_match.
  - rewrite !float_of_int_canon by lia. intros Heq. f_equal. apply Hc; [lia|lia|done].
Qed.

(** A NaN stays a NaN under [+=] and [-=]. *)
Lemma fadd_nan x : fadd S754_nan x = S754_nan.
Proof. reflexivity. Qed.

Lemma fsub_nan x : fsub S754_nan x = S754_nan.
Proof. by destruct x. Qed.

End SmallIntegers.
(* ================================================================= *)
(** * Properties of [EfficientEntropyHistogram] *)

(** Unfolds the monad and the field accesses of a run on an explicit
    object. *)
Ltac run_monad :=
  cbv beta iota zeta delta
    [mbind mret M_bind M_ret gets modify throw BOOST_ASSERT_MSG ENTROPY ENTROPY_int
     histogram_at entropies_at histogram_store entropies_store
     totalEntropy_add totalEntropy_sub mass_add mass_sub
     set_bins set_histogram set_mass set_entropies set_totalEntropy
     getSize getMass getEntropy at_ addOne subOne resize construct call
     outcome after log2_args bins histogram mass entropies totalEntropy
     app andb].

Section Arrays.

Context {A : Type}.
Implicit Types (l : list A) (i : Z) (k : nat).

Lemma cell_store_eq d l i v :
  Z.to_nat i < length l -> cell d (store l i v) i = v.
Proof. intros Hi. unfold cell, store. by rewrite list_lookup_insert_eq. Qed.

Lemma length_store l i v : length (store l i v) = length l.
Proof. apply length_insert. Qed.

Lemma cell_fmap {B : Type} (f : A -> B) d l i :
  Z.to_nat i < length l -> cell (f d) (f <$> l) i = f (cell d l i).
Proof.
  intros Hi. unfold cell. rewrite list_lookup_fmap.
  destruct (lookup_lt_is_Some_2 l _ Hi) as [x ->]. done.
Qed.

Lemma store_fmap {B : Type} (f : A -> B) l i v :
  store (f <$> l) i (f v) = f <$> store l i v.
Proof. unfold store. by rewrite list_fmap_insert. Qed.

(** Filling the cells [0 .. n-1] of an [n]-cell array, one by one. *)
Lemma fill_lookup (z : A) idx l j :
  foldl (fun l k => store l (Z.of_nat k) z) l idx !! j
  = if bool_decide (j ∈ idx /\ j < length l) then Some z else l !! j.
Proof.
  revert l. induction idx as [|k idx IH]; intros l; cbn [foldl].
  - rewrite bool_decide_eq_false_2; [done|]. intros [Hin _]. by apply elem_of_nil in Hin.
  - rewrite IH, length_store. unfold store. rewrite Nat2Z.id.
    destruct (decide (j ∈ idx /\ j < length l)) as [Hj|Hj].
    + rewrite !bool_decide_eq_true_2; [done| |done]. split; [|tauto]. apply elem_of_cons. tauto.
    + rewrite (bool_decide_eq_false_2 _ Hj).
      destruct (decide (j = k)) as [->|Hne].
      * destruct (decide (k < length l)) as [Hk|Hk].
        -- rewrite list_lookup_insert_eq by done.
           rewrite bool_decide_eq_true_2; [done|]. split; [|done]. apply elem_of_cons. tauto.
        -- rewrite list_insert_ge by lia.
           rewrite bool_decide_eq_false_2; [done|]. tauto.
      * rewrite list_lookup_insert_ne by done.
        rewrite bool_decide_eq_false_2; [done|].
        intros [Hin Hlt]. apply elem_of_cons in Hin as [?|?]; tauto.
Qed.

Lemma fill_all (z : A) l :
  foldl (fun l k => store l (Z.of_nat k) z) l (seq 0 (length l)) = replicate (length l) z.
Proof.
  apply list_eq. intros j. rewrite fill_lookup.
  destruct (decide (j < length l)) as [Hj|Hj].
  - rewrite bool_decide_eq_true_2; [|split; [apply elem_of_seq; lia|done]].
    symmetry. by apply lookup_replicate_2.
  - rewrite bool_decide_eq_false_2 by tauto.
    rewrite lookup_ge_None_2 by lia. symmetry. apply lookup_ge_None_2.
    rewrite length_replicate. lia.
Qed.

End Arrays.

Section Sums.

Lemma sumZ_store l i v :
  Z.to_nat i < length l ->
  sumZ (store l i v) = (sumZ l - cell 0 l i + v)%Z.
Proof.
  unfold store, cell. generalize (Z.to_nat i) as k. clear i.
  induction l as [|x l IH]; intros k Hk; simpl in *; [lia|].
  destruct k as [|k]; simpl; [lia|]. rewrite IH by lia. lia.
Qed.

Lemma sumZ_replicate n : sumZ (replicate n 0%Z) = 0%Z.
Proof. induction n as [|n IH]; simpl; [done|]. exact IH. Qed.

Lemma sumZ_nonneg l : Forall (fun c => 0 <= c)%Z l -> (0 <= sumZ l)%Z.
Proof. induction 1; simpl; lia. Qed.

Lemma cell_le_sumZ l i :
  Forall (fun c => 0 <= c)%Z l -> (cell 0 l i <= sumZ l)%Z.
Proof.
  intros Hl. unfold cell. generalize (Z.to_nat i) as k. clear i.
  induction Hl as [|x l Hx Hl IH]; intros k; simpl; [destruct k; simpl; lia|].
  pose proof (sumZ_nonneg l Hl).
  destruct k as [|k]; simpl; [lia|]. specialize (IH k). lia.
Qed.

End Sums.

Section HistogramTheory.

Variable fastlog2 : float -> float.
Variable uninit_int : nat -> Z.
Variable uninit_float : nat -> float.

Local Abbreviation ENTROPY_value := (ENTROPY_value fastlog2).
Local Abbreviation ENTROPY_int_value := (ENTROPY_int_value fastlog2).
Local Abbreviation addOne := (addOne fastlog2).
Local Abbreviation subOne := (subOne fastlog2).
Local Abbreviation resize := (resize uninit_int uninit_float).
Local Abbreviation construct := (construct uninit_int uninit_float).
Local Abbreviation call := (call fastlog2 uninit_int uninit_float).
Local Abbreviation bin_entropy := (bin_entropy fastlog2).
Local Abbreviation wf := (wf fastlog2).
Local Abbreviation reachable := (reachable fastlog2 uninit_int uninit_float).
Local Abbreviation contribution := (contribution fastlog2).
Local Abbreviation runs := (runs fastlog2 uninit_int uninit_float).
Local Abbreviation final := (final fastlog2 uninit_int uninit_float).
Local Abbreviation valid_updates := (valid_updates fastlog2 uninit_int uninit_float).
Local Abbreviation entropy_stays_zero := (entropy_stays_zero fastlog2).

Implicit Types (h : EfficientEntropyHistogram) (i : Z).

(** **** [at] *)

Lemma at_ok h i :
  (0 <= i < bins h)%Z ->
  at_ i h = mkRun (Return (cell 0%Z (histogram h) i)) h [].
Proof.
  intros Hi. destruct h as [b hist m ent te]. simpl in Hi.
  run_monad.
  rewrite (bool_decide_eq_true_2 (i >= 0)%Z), (bool_decide_eq_true_2 (i < b)%Z) by lia.
  reflexivity.
Qed.

Lemma at_fail h i :
  ~ (0 <= i < bins h)%Z ->
  at_ i h = mkRun (Throw (mkAssertionException "Bin index out of range.")) h [].
Proof.
  intros Hi. destruct h as [b hist m ent te]. simpl in Hi.
  run_monad.
  destruct (decide (i >= 0)%Z) as [Hge|Hge].
  - rewrite (bool_decide_eq_true_2 _ Hge), (bool_decide_eq_false_2 (i < b)%Z) by lia.
    reflexivity.
  - rewrite (bool_decide_eq_false_2 _ Hge). reflexivity.
Qed.

Lemma at_value_ok h i :
  (0 <= i < bins h)%Z -> at_value h i = cell 0%Z (histogram h) i.
Proof. intros Hi. unfold at_value, value. by rewrite at_ok. Qed.

(** **** [addOne] *)

Lemma addOne_ok h i :
  (0 <= i < bins h)%Z ->
  Z.to_nat i < length (histogram h) ->
  Z.to_nat i < length (entropies h) ->
  let n := (cell 0 (histogram h) i + 1)%Z in
  let m' := fadd (mass h) (float_of_int 1) in
  addOne i h =
  mkRun (Return tt)
    (mkHistogram (bins h)
       (store (histogram h) i n)
       m'
       (store (entropies h) i (ENTROPY_int_value n))
       (fadd (fsub (fsub (fadd (totalEntropy h) (ENTROPY_value (mass h)))
                         (ENTROPY_value m'))
                   (cell (float_of_int 0) (entropies h) i))
             (ENTROPY_int_value n)))
    [mass h; m'; float_of_int n].
Proof.
  intros Hi Hh He n m'. destruct h as [b hist m ent te]. simpl in *.
  run_monad.
  rewrite (bool_decide_eq_true_2 (i >= 0)%Z), (bool_decide_eq_true_2 (i < b)%Z) by lia.
  run_monad. rewrite !cell_store_eq by done. reflexivity.
Qed.

Lemma addOne_fail h i :
  ~ (0 <= i < bins h)%Z ->
  addOne i h = mkRun (Throw (mkAssertionException "Invalid bin bin index.")) h [].
Proof.
  intros Hi. destruct h as [b hist m ent te]. simpl in Hi.
  run_monad.
  destruct (decide (i >= 0)%Z) as [Hge|Hge].
  - rewrite (bool_decide_eq_true_2 _ Hge), (bool_decide_eq_false_2 (i < b)%Z) by lia.
    reflexivity.
  - rewrite (bool_decide_eq_false_2 _ Hge). reflexivity.
Qed.

(** **** [subOne] *)

Lemma subOne_ok h i :
  (0 <= i < bins h)%Z ->
  Z.to_nat i < length (histogram h) ->
  Z.to_nat i < length (entropies h) ->
  (0 < cell 0 (histogram h) i)%Z ->
  let n := (cell 0 (histogram h) i - 1)%Z in
  let m' := fsub (mass h) (float_of_int 1) in
  let te := fsub (fsub (fadd (totalEntropy h) (ENTROPY_value (mass h)))
                       (ENTROPY_value m'))
                 (cell (float_of_int 0) (entropies h) i) in
  subOne i h =
  mkRun (Return tt)
    (mkHistogram (bins h)
       (store (histogram h) i n)
       m'
       (store (entropies h) i (bin_entropy n))
       (if bool_decide (n < 1)%Z then te else fadd te (ENTROPY_int_value n)))
    ([mass h; m'] ++ if bool_decide (n < 1)%Z then [] else [float_of_int n]).
Proof.
  intros Hi Hh He Hpos n m' te. destruct h as [b hist m ent te0]. simpl in *.
  run_monad.
  rewrite !(bool_decide_eq_true_2 (i >= 0)%Z), !(bool_decide_eq_true_2 (i < b)%Z) by lia.
  run_monad. rewrite (bool_decide_eq_true_2 (cell 0 hist i > 0)%Z) by lia.
  run_monad. rewrite !(cell_store_eq 0%Z) by done. fold n. unfold bin_entropy.
  destruct (bool_decide (n < 1)%Z); run_monad; rewrite ?cell_store_eq by done;
    reflexivity.
Qed.

Lemma subOne_fail_index h i :
  ~ (0 <= i < bins h)%Z ->
  subOne i h = mkRun (Throw (mkAssertionException "Invalid bin bin index.")) h [].
Proof.
  intros Hi. destruct h as [b hist m ent te]. simpl in Hi.
  run_monad.
  destruct (decide (i >= 0)%Z) as [Hge|Hge].
  - rewrite (bool_decide_eq_true_2 _ Hge), (bool_decide_eq_false_2 (i < b)%Z) by lia.
    reflexivity.
  - rewrite (bool_decide_eq_false_2 _ Hge). reflexivity.
Qed.

Lemma subOne_fail_empty h i :
  (0 <= i < bins h)%Z ->
  (cell 0 (histogram h) i <= 0)%Z ->
  subOne i h = mkRun (Throw (mkAssertionException "Bin is already empty.")) h [].
Proof.
  intros Hi Hz. destruct h as [b hist m ent te]. simpl in *.
  run_monad.
  rewrite !(bool_decide_eq_true_2 (i >= 0)%Z), !(bool_decide_eq_true_2 (i < b)%Z) by lia.
  run_monad. rewrite (bool_decide_eq_false_2 (cell 0 hist i > 0)%Z) by lia.
  reflexivity.
Qed.

(** **** [reset] and [resize] *)

Lemma reset_loop idx h :
  for_ idx (fun k => histogram_store (Z.of_nat k) 0%Z ;;
                     entropies_store (Z.of_nat k) (float_of_int 0)) h
  = mkRun (Return tt)
      (mkHistogram (bins h)
         (foldl (fun l k => store l (Z.of_nat k) 0%Z) (histogram h) idx)
         (mass h)
         (foldl (fun l k => store l (Z.of_nat k) (float_of_int 0)) (entropies h) idx)
         (totalEntropy h))
      [].
Proof.
  revert h. induction idx as [|k idx IH]; intros [b hist m ent te]; [reflexivity|].
  cbn [for_ foldl]. unfold mbind at 1, M_bind. run_monad. rewrite IH. reflexivity.
Qed.

Lemma reset_run h :
  length (histogram h) = Z.to_nat (bins h) ->
  length (entropies h) = Z.to_nat (bins h) ->
  reset h = mkRun (Return tt)
      (mkHistogram (bins h) (replicate (Z.to_nat (bins h)) 0%Z) (float_of_int 0)
                   (replicate (Z.to_nat (bins h)) (float_of_int 0)) (float_of_int 0)) [].
Proof.
  intros Hh He. unfold reset.
  unfold mbind at 1 2 3, M_bind. cbv beta iota delta [gets]. rewrite reset_loop.
  run_monad. rewrite <- Hh at 1. rewrite <- He at 1.
  rewrite !fill_all, Hh, He. reflexivity.
Qed.

Lemma resize_fail h newBins :
  (newBins < 0)%Z ->
  resize newBins h
  = mkRun (Throw (mkAssertionException "Bin count must be non-negative.")) h [].
Proof.
  intros Hn. destruct h as [b hist m ent te].
  run_monad. rewrite bool_decide_eq_false_2 by lia. reflexivity.
Qed.

Lemma resize_pos h newBins :
  (0 < newBins)%Z ->
  resize newBins h
  = mkRun (Return tt)
      (mkHistogram newBins (replicate (Z.to_nat newBins) 0%Z) (float_of_int 0)
                   (replicate (Z.to_nat newBins) (float_of_int 0)) (float_of_int 0)) [].
Proof.
  intros Hn. destruct h as [b hist m ent te].
  run_monad.
  rewrite (bool_decide_eq_true_2 (newBins >= 0)%Z), (bool_decide_eq_true_2 (newBins > 0)%Z) by lia.
  destruct (bool_decide (newBins ≠ b)); run_monad;
    (rewrite reset_run; [reflexivity| |]); simpl; by rewrite length_fmap, length_seq.
Qed.

Lemma resize_zero h :
  resize 0 h
  = mkRun (Return tt)
      (if bool_decide (0%Z ≠ bins h)
       then mkHistogram 0 [] (mass h) [] (totalEntropy h)
       else mkHistogram 0 (histogram h) (mass h) (entropies h) (totalEntropy h)) [].
Proof.
  destruct h as [b hist m ent te].
  run_monad. simpl.
  destruct (bool_decide (0%Z ≠ b)); reflexivity.
Qed.

Lemma construct_ok nbins :
  (0 <= nbins)%Z ->
  construct nbins
  = mkRun (Return tt)
      (mkHistogram nbins (replicate (Z.to_nat nbins) 0%Z) (float_of_int 0)
                   (replicate (Z.to_nat nbins) (float_of_int 0)) (float_of_int 0)) [].
Proof.
  intros Hb. destruct (decide (nbins = 0%Z)) as [->|Hne].
  - reflexivity.
  - apply (resize_pos default_histogram nbins). lia.
Qed.

(** **** The representation invariant under the calls *)

Lemma bin_entropy_pos n : (1 <= n)%Z -> bin_entropy n = ENTROPY_int_value n.
Proof. intros Hn. unfold bin_entropy. by rewrite bool_decide_eq_false_2 by lia. Qed.

Lemma bin_entropy_0 : bin_entropy 0 = float_of_int 0.
Proof. reflexivity. Qed.

Lemma contribution_bin n : contribution n = bin_entropy n.
Proof.
  unfold contribution, bin_entropy, ENTROPY_int_value.
  repeat case_bool_decide; done || lia.
Qed.

Lemma wf_entropies_length h : wf h -> length (entropies h) = Z.to_nat (bins h).
Proof. intros (_ & Hlen & _ & ->). by rewrite length_fmap. Qed.

Lemma wf_index h i : wf h -> (0 <= i < bins h)%Z -> Z.to_nat i < length (histogram h).
Proof. intros (_ & Hlen & _) Hi. lia. Qed.

Lemma wf_index_entropies h i :
  wf h -> (0 <= i < bins h)%Z -> Z.to_nat i < length (entropies h).
Proof. intros Hwf Hi. rewrite wf_entropies_length by done. lia. Qed.

Lemma wf_cell_nonneg h i : wf h -> (0 <= cell 0 (histogram h) i)%Z.
Proof.
  intros (_ & _ & Hpos & _). unfold cell.
  destruct (histogram h !! Z.to_nat i) as [c|] eqn:Hc; simpl; [|lia].
  by apply (Forall_lookup_1 _ _ _ _ Hpos Hc).
Qed.

Lemma wf_sized h : wf h -> sized h.
Proof.
  intros Hwf. pose proof (wf_entropies_length h Hwf).
  split; [apply Hwf|]. split; [apply Hwf|done].
Qed.

Lemma wf_zeros n :
  (0 <= n)%Z ->
  forall m te,
  wf (mkHistogram n (replicate (Z.to_nat n) 0%Z) m
                  (replicate (Z.to_nat n) (float_of_int 0)) te).
Proof.
  intros Hn m te. unfold wf; simpl.
  split; [done|]. split; [by rewrite length_replicate|]. split.
  - apply Forall_replicate. lia.
  - by rewrite fmap_replicate.
Qed.

Lemma addOne_wf h i :
  wf h -> (0 <= i < bins h)%Z ->
  let r := addOne i h in
  outcome r = Return tt /\
  bins (after r) = bins h /\
  histogram (after r) = store (histogram h) i (cell 0 (histogram h) i + 1)%Z /\
  mass (after r) = fadd (mass h) (float_of_int 1) /\
  wf (after r).
Proof.
  intros Hwf Hi r.
  pose proof (wf_index h i Hwf Hi) as Hih.
  pose proof (wf_index_entropies h i Hwf Hi) as Hie.
  pose proof (wf_cell_nonneg h i Hwf) as Hc.
  destruct Hwf as (Hb & Hlen & Hpos & Hent).
  subst r. rewrite addOne_ok by done. simpl.
  split; [done|]. split; [done|]. split; [done|]. split; [done|].
  unfold wf; simpl. split; [done|]. split; [by rewrite length_store|]. split.
  - apply Forall_insert; [done|lia].
  - rewrite Hent, <- (bin_entropy_pos (cell 0 (histogram h) i + 1)%Z) by lia.
    by rewrite store_fmap.
Qed.

Lemma subOne_wf h i :
  wf h -> (0 <= i < bins h)%Z -> (0 < cell 0 (histogram h) i)%Z ->
  let r := subOne i h in
  outcome r = Return tt /\
  bins (after r) = bins h /\
  histogram (after r) = store (histogram h) i (cell 0 (histogram h) i - 1)%Z /\
  mass (after r) = fsub (mass h) (float_of_int 1) /\
  wf (after r).
Proof.
  intros Hwf Hi Hc r.
  pose proof (wf_index h i Hwf Hi) as Hih.
  pose proof (wf_index_entropies h i Hwf Hi) as Hie.
  destruct Hwf as (Hb & Hlen & Hpos & Hent).
  subst r. rewrite subOne_ok by done. simpl.
  split; [done|]. split; [done|]. split; [done|]. split; [done|].
  unfold wf; simpl. split; [done|]. split; [by rewrite length_store|]. split.
  - apply Forall_insert; [done|lia].
  - by rewrite Hent, store_fmap.
Qed.

Lemma default_wf : wf default_histogram.
Proof. by repeat split. Qed.

Lemma call_wf h c : wf h -> wf (after (call c h)).
Proof.
  intros Hwf. destruct c as [i|i| |n].
  - change (call (AddOne i) h) with (addOne i h).
    destruct (decide (0 <= i < bins h)%Z) as [Hi|Hi].
    + by destruct (addOne_wf h i Hwf Hi) as (_ & _ & _ & _ & Hwf').
    + by rewrite addOne_fail.
  - change (call (SubOne i) h) with (subOne i h).
    destruct (decide (0 <= i < bins h)%Z) as [Hi|Hi].
    + destruct (decide (0 < cell 0 (histogram h) i)%Z) as [Hc|Hc].
      * by destruct (subOne_wf h i Hwf Hi Hc) as (_ & _ & _ & _ & Hwf').
      * by rewrite subOne_fail_empty by (done || lia).
    + by rewrite subOne_fail_index.
  - change (call Reset h) with (reset h).
    rewrite reset_run; [|apply Hwf|by apply wf_entropies_length]. simpl.
    apply wf_zeros. apply Hwf.
  - change (call (Resize n) h) with (resize n h).
    destruct (Z.lt_trichotomy n 0) as [Hn|[->|Hn]].
    + by rewrite resize_fail.
    + rewrite resize_zero. simpl. case_bool_decide as Hb.
      * by repeat split.
      * assert (Hb0 : bins h = 0%Z) by (destruct (decide (bins h = 0%Z)); [done|exfalso; auto]).
        destruct Hwf as (? & Hlen & Hpos & Hent).
        unfold wf; simpl. split; [lia|]. split; [by rewrite Hlen, Hb0|by split].
    + rewrite resize_pos by done. simpl. apply wf_zeros. lia.
Qed.

Lemma reachable_wf h : reachable h -> wf h.
Proof.
  induction 1 as [|nbins Hret|h c Hh IH].
  - apply default_wf.
  - change (wf (after (call (Resize nbins) default_histogram))).
    apply call_wf, default_wf.
  - by apply call_wf.
Qed.

(** **** The mass as long as it counts exactly *)

Lemma addOne_counted h i k :
  wf h -> mass_counted k h -> (k < 2 ^ 24)%Z -> (0 <= i < bins h)%Z ->
  mass_counted (k + 1) (after (addOne i h)).
Proof.
  intros Hwf [Hm Hk] Hlt Hi.
  destruct (addOne_wf h i Hwf Hi) as (_ & _ & Hh & Hm' & _).
  pose proof (wf_index h i Hwf Hi) as Hih.
  pose proof (sumZ_nonneg _ (proj1 (proj2 (proj2 Hwf)))) as Hs.
  unfold mass_counted. rewrite Hm', Hh, Hm, sumZ_store by done.
  rewrite fadd_one by lia. split; [f_equal; lia|lia].
Qed.

Lemma subOne_counted h i k :
  wf h -> mass_counted k h -> (k <= 2 ^ 24)%Z ->
  (0 <= i < bins h)%Z -> (0 < cell 0 (histogram h) i)%Z ->
  mass_counted k (after (subOne i h)).
Proof.
  intros Hwf [Hm Hk] Hle Hi Hc.
  destruct (subOne_wf h i Hwf Hi Hc) as (_ & _ & Hh & Hm' & _).
  pose proof (wf_index h i Hwf Hi) as Hih.
  pose proof (cell_le_sumZ _ i (proj1 (proj2 (proj2 Hwf)))) as Hs.
  unfold mass_counted. rewrite Hm', Hh, Hm, sumZ_store by done.
  rewrite fsub_one by lia. split; [f_equal; lia|lia].
Qed.

Lemma valid_update_step h c :
  wf h -> valid_update h c ->
  let r := call c h in
  returned r /\ bins (after r) = bins h /\ wf (after r).
Proof.
  intros Hwf Hv. destruct c as [i|i| |n]; simpl in Hv; try done.
  - destruct (addOne_wf h i Hwf Hv) as (Hr & Hb & _ & _ & Hwf').
    unfold returned. change (call (AddOne i) h) with (addOne i h). by rewrite Hr.
  - destruct Hv as [Hi Hc]. rewrite at_value_ok in Hc by done.
    destruct (subOne_wf h i Hwf Hi Hc) as (Hr & Hb & _ & _ & Hwf').
    unfold returned. change (call (SubOne i) h) with (subOne i h). by rewrite Hr.
Qed.

Lemma valid_update_counted h c k :
  wf h -> mass_counted k h -> (k < 2 ^ 24)%Z -> valid_update h c ->
  mass_counted (k + 1) (after (call c h)).
Proof.
  intros Hwf Hm Hk Hv. destruct c as [i|i| |n]; simpl in Hv; try done.
  - by apply addOne_counted.
  - destruct Hv as [Hi Hc]. rewrite at_value_ok in Hc by done.
    change (call (SubOne i) h) with (subOne i h).
    destruct (subOne_counted h i k Hwf Hm) as [Hm' Hk']; [lia|done|done|].
    split; [done|lia].
Qed.

Lemma valid_updates_runs h cs k :
  wf h -> mass_counted k h -> (k + Z.of_nat (length cs) <= 2 ^ 24)%Z ->
  valid_updates h cs ->
  Forall (fun r => returned r /\ wf (after r) /\ mass_counted (2 ^ 24) (after r))
         (runs h cs).
Proof.
  revert h k. induction cs as [|c cs IH]; intros h k Hwf Hm Hk Hv; [constructor|].
  destruct Hv as [Hc Hcs]. cbn [length] in Hk. simpl.
  destruct (valid_update_step h c Hwf Hc) as (Hr & Hb & Hwf').
  pose proof (valid_update_counted h c k Hwf Hm ltac:(lia) Hc) as Hm'.
  constructor.
  - split; [done|]. split; [done|]. destruct Hm' as [? ?]. split; [done|lia].
  - apply (IH _ (k + 1)%Z); [done|done|lia|done].
Qed.

Lemma valid_updates_final h cs k :
  wf h -> mass_counted k h -> (k + Z.of_nat (length cs) <= 2 ^ 24)%Z ->
  valid_updates h cs ->
  wf (final h cs) /\ mass_counted (2 ^ 24) (final h cs) /\ bins (final h cs) = bins h.
Proof.
  revert h k. induction cs as [|c cs IH]; intros h k Hwf Hm Hk Hv.
  - change (final h []) with h. cbn [length] in Hk.
    split; [done|]. split; [|done]. destruct Hm as [? ?]. split; [done|lia].
  - destruct Hv as [Hc Hcs]. cbn [length] in Hk.
    destruct (valid_update_step h c Hwf Hc) as (Hr & Hb & Hwf').
    pose proof (valid_update_counted h c k Hwf Hm ltac:(lia) Hc) as Hm'.
    destruct (IH _ (k + 1)%Z Hwf' Hm' ltac:(lia) Hcs) as (? & ? & Hb'').
    change (final h (c :: cs)) with (final (after (call c h)) cs).
    split; [done|]. split; [done|]. by rewrite Hb''.
Qed.

Lemma fresh_wf nbins :
  (0 <= nbins)%Z ->
  let h := after (construct nbins) in
  wf h /\ mass_counted 0 h /\ bins h = nbins.
Proof.
  intros Hb. rewrite construct_ok by done. simpl.
  split; [by apply wf_zeros|]. split; [|done].
  split; simpl; by rewrite sumZ_replicate.
Qed.

(** **** What the observers see *)

Lemma at_values h :
  length (histogram h) = Z.to_nat (bins h) ->
  at_value h <$> indices h = histogram h.
Proof.
  intros Hlen. apply list_eq. intros j. unfold indices.
  rewrite <- list_fmap_compose, list_lookup_fmap.
  destruct (decide (j < length (histogram h))) as [Hj|Hj].
  - rewrite lookup_seq_lt by lia. simpl.
    rewrite at_value_ok by lia. unfold cell. rewrite Nat2Z.id.
    destruct (lookup_lt_is_Some_2 _ _ Hj) as [x ->]. done.
  - rewrite lookup_seq_ge by lia. rewrite lookup_ge_None_2 by lia. done.
Qed.

Lemma sum_at_histogram h : wf h -> sum_at h = sumZ (histogram h).
Proof. intros Hwf. unfold sum_at. rewrite at_values; [done|apply Hwf]. Qed.

Lemma cached_contributions h :
  wf h -> entropies h = (fun i => contribution (at_value h i)) <$> indices h.
Proof.
  intros Hwf. destruct Hwf as (Hb & Hlen & Hpos & Hent).
  rewrite Hent. rewrite <- (at_values h Hlen) at 1. rewrite <- list_fmap_compose.
  apply list_fmap_ext. intros _ i _. simpl. symmetry. apply contribution_bin.
Qed.

Lemma runs_app h cs1 cs2 :
  runs h (cs1 ++ cs2) = runs h cs1 ++ runs (final h cs1) cs2.
Proof.
  revert h. induction cs1 as [|c cs1 IH]; intros h; [done|].
  simpl. by rewrite IH.
Qed.

Lemma final_app h cs1 cs2 : final h (cs1 ++ cs2) = final (final h cs1) cs2.
Proof. apply foldl_app. Qed.

Lemma reachable_fresh n : (0 <= n)%Z -> reachable (after (construct n)).
Proof. intros Hn. apply reachable_construct. by rewrite construct_ok. Qed.

Lemma reachable_final h cs : reachable h -> reachable (final h cs).
Proof.
  revert h. induction cs as [|c cs IH]; intros h Hh; [done|].
  apply (IH (after (call c h))). by apply reachable_call.
Qed.

(* ----------------------------------------------------------------- *)
(** *** The claims about the class *)



(** C5. A negative bin count makes [resize] fail with [InvalidArgument]
    (so does [resize(-1)]); a bin index below [0] or from the bin count on
    makes [addOne], [subOne] and [at] fail with [IndexOutOfRange] (so does
    [addOne(b)] on [b] bins); [subOne] on a bin whose count is [0] fails
    with [PreconditionViolation]; and each of these failures leaves every
    field of the object as it was. *)
Theorem error_contracts h i newBins :
  ((newBins < 0)%Z ->
     threw (resize newBins h) InvalidArgument /\ after (resize newBins h) = h) /\
  (~ (0 <= i < bins h)%Z ->
     (threw (addOne i h) IndexOutOfRange /\ after (addOne i h) = h) /\
     (threw (subOne i h) IndexOutOfRange /\ after (subOne i h) = h) /\
     (threw (at_ i h) IndexOutOfRange /\ after (at_ i h) = h)) /\
  ((0 <= i < bins h)%Z -> outcome (at_ i h) = Return 0%Z ->
     threw (subOne i h) PreconditionViolation /\ after (subOne i h) = h).
Proof.
  split; [|split].
  - intros Hn. by rewrite resize_fail.
  - intros Hi. by rewrite addOne_fail, subOne_fail_index, at_fail.
  - intros Hi Hz. rewrite at_ok in Hz by done. simpl in Hz.
    rewrite subOne_fail_empty; [done|done|]. injection Hz as ->. done.
Qed.

(** **** All the mass in one bin *)

(** [n] calls of [addOne(i)] on a fresh histogram: every call returns, bin
    [i] holds [n], the other bins hold [0], and the mass has counted up to
    [n], or to [2^24] where it stops. *)
Lemma addOne_repeat b i n :
  (0 <= i < b)%Z ->
  let h0 := after (construct b) in
  let h := final h0 (replicate n (AddOne i)) in
  Forall returned (runs h0 (replicate n (AddOne i))) /\
  wf h /\ bins h = b /\
  histogram h = store (replicate (Z.to_nat b) 0%Z) i (Z.of_nat n) /\
  mass h = float_of_int (Z.of_nat n `min` 2 ^ 24).
Proof.
  intros Hi h0. induction n as [|n IH]; intros h.
  - subst h h0. rewrite construct_ok by lia. simpl.
    split; [constructor|]. split; [apply wf_zeros; lia|]. split; [done|].
    split; [|done]. symmetry. apply list_insert_id. apply lookup_replicate_2. lia.
  - destruct IH as (Hret & Hwf & Hb & Hh & Hm).
    subst h. rewrite replicate_S_end, runs_app, final_app.
    set (h := final h0 (replicate n (AddOne i))) in *.
    assert (Hi' : (0 <= i < bins h)%Z) by (by rewrite Hb).
    destruct (addOne_wf h i Hwf Hi') as (Hr & Hb' & Hh' & Hm' & Hwf').
    change (final h [AddOne i]) with (after (addOne i h)).
    split.
    + apply Forall_app. split; [done|]. constructor; [|constructor].
      unfold returned. change (call (AddOne i) h) with (addOne i h). by rewrite Hr.
    + split; [done|]. split; [by rewrite Hb'|]. split.
      * rewrite Hh', Hh. rewrite cell_store_eq by (rewrite length_replicate; lia).
        unfold store. rewrite list_insert_insert_eq. f_equal. lia.
      * rewrite Hm', Hm. destruct (Z.lt_ge_cases (Z.of_nat n) (2 ^ 24)) as [Hlt|Hge].
        -- rewrite Z.min_l, fadd_one by lia. f_equal. lia.
        -- rewrite !Z.min_r by lia. apply fadd_one_saturated.
Qed.

Lemma addOne_repeat_at b i n :
  (0 <= i < b)%Z ->
  outcome (at_ i (final (after (construct b)) (replicate n (AddOne i))))
  = Return (Z.of_nat n).
Proof.
  intros Hi. destruct (addOne_repeat b i n Hi) as (_ & Hwf & Hb & Hh & _).
  rewrite at_ok by lia. rewrite Hh. simpl.
  by rewrite cell_store_eq by (rewrite length_replicate; lia).
Qed.

(** [addOne(i)] on [h] and [addOne(j)] on [h1] do the same to the scalars
    they share. *)
Lemma addOne_same_bin h i h1 j :
  wf h -> wf h1 -> (0 <= i < bins h)%Z -> (0 <= j < bins h1)%Z ->
  same_bin h i h1 j ->
  same_bin (after (addOne i h)) i (after (addOne j h1)) j.
Proof.
  intros Hwf Hwf1 Hi Hj (Hm & Ht & Hc & He).
  pose proof (wf_index h i Hwf Hi). pose proof (wf_index_entropies h i Hwf Hi).
  pose proof (wf_index h1 j Hwf1 Hj). pose proof (wf_index_entropies h1 j Hwf1 Hj).
  rewrite !addOne_ok by done. unfold same_bin.
  cbn [after mass totalEntropy histogram entropies].
  rewrite !cell_store_eq by done. rewrite Hm, Ht, Hc, He. done.
Qed.

(** The entropy of a run of [addOne(i)] on [b] bins is that of the run of
    [addOne(0)] on one bin. *)
Lemma single_bin_projection b i n :
  (0 <= i < b)%Z ->
  totalEntropy (final (after (construct b)) (replicate n (AddOne i)))
  = totalEntropy (final (after (construct 1)) (replicate n (AddOne 0))).
Proof.
  intros Hi.
  enough (Hs : same_bin (final (after (construct b)) (replicate n (AddOne i))) i
                        (final (after (construct 1)) (replicate n (AddOne 0))) 0)
    by apply Hs.
  induction n as [|n IH].
  - rewrite !construct_ok by lia. unfold same_bin. simpl.
    unfold cell. rewrite !lookup_replicate_2 by lia. done.
  - rewrite !replicate_S_end, !final_app.
    destruct (addOne_repeat b i n Hi) as (_ & Hwf & Hb & _).
    destruct (addOne_repeat 1 0 n) as (_ & Hwf1 & Hb1 & _); [lia|].
    apply addOne_same_bin; [done|done|lia|lia|done].
Qed.

Lemma entropy_stays_zero_S N h :
  entropy_stays_zero (S N) h
  = bool_decide (totalEntropy (after (addOne 0 h)) = float_of_int 0)
    && entropy_stays_zero N (after (addOne 0 h)).
Proof. reflexivity. Qed.

Lemma entropy_stays_zero_sound N h1 n :
  entropy_stays_zero N h1 = true -> 0 < n <= N ->
  totalEntropy (final h1 (replicate n (AddOne 0))) = float_of_int 0.
Proof.
  revert h1 n. induction N as [|N IH]; intros h1 n Hz Hn; [lia|].
  rewrite entropy_stays_zero_S in Hz. apply andb_true_iff in Hz as [Hte Hrest].
  apply bool_decide_eq_true_1 in Hte.
  destruct n as [|n]; [lia|].
  change (final h1 (replicate (S n) (AddOne 0)))
    with (final (after (addOne 0 h1)) (replicate n (AddOne 0))).
  destruct n as [|n]; [exact Hte|].
  apply IH; [done|lia].
Qed.

(** **** A logarithm that is infinite at zero *)

Lemma fadd_nan_r x : fadd x S754_nan = S754_nan.
Proof. by destruct x. Qed.

Lemma ENTROPY_value_zero_nan :
  fastlog2 (float_of_int 0) = S754_infinity true ->
  ENTROPY_value (float_of_int 0) = S754_nan.
Proof. intros Hinf. unfold ENTROPY_value. rewrite Hinf. reflexivity. Qed.

(** [addOne] at mass [0] makes the entropy a NaN. *)
Lemma addOne_zero_mass_nan h i :
  fastlog2 (float_of_int 0) = S754_infinity true ->
  wf h -> (0 <= i < bins h)%Z -> mass h = float_of_int 0 ->
  totalEntropy (after (addOne i h)) = S754_nan.
Proof.
  intros Hinf Hwf Hi Hm.
  pose proof (wf_index h i Hwf Hi). pose proof (wf_index_entropies h i Hwf Hi).
  rewrite addOne_ok by done. cbn [after totalEntropy].
  by rewrite Hm, ENTROPY_value_zero_nan, fadd_nan_r, !fsub_nan, fadd_nan.
Qed.

(** A NaN entropy stays one under every valid update. *)
Lemma valid_update_nan h c :
  wf h -> valid_update h c -> totalEntropy h = S754_nan ->
  totalEntropy (after (call c h)) = S754_nan.
Proof.
  intros Hwf Hv Hnan. destruct c as [i|i| |n]; simpl in Hv; try done.
  - pose proof (wf_index h i Hwf Hv). pose proof (wf_index_entropies h i Hwf Hv).
    change (call (AddOne i) h) with (addOne i h).
    rewrite addOne_ok by done. cbn [after totalEntropy].
    rewrite Hnan. reflexivity.
  - destruct Hv as [Hi Hc]. rewrite at_value_ok in Hc by done.
    pose proof (wf_index h i Hwf Hi). pose proof (wf_index_entropies h i Hwf Hi).
    change (call (SubOne i) h) with (subOne i h).
    rewrite subOne_ok by done. cbn [after totalEntropy].
    rewrite Hnan. by case_bool_decide.
Qed.

Lemma final_cons h c cs : final h (c :: cs) = final (after (call c h)) cs.
Proof. reflexivity. Qed.

Lemma valid_updates_nan h cs :
  wf h -> valid_updates h cs -> totalEntropy h = S754_nan ->
  totalEntropy (final h cs) = S754_nan.
Proof.
  revert h. induction cs as [|c cs IH]; intros h Hwf Hv Hnan; [done|].
  destruct Hv as [Hc Hcs].
  change (final h (c :: cs)) with (final (after (call c h)) cs).
  apply IH; [by apply call_wf|done|by apply valid_update_nan].
Qed.

Lemma valid_updates_app h cs1 cs2 :
  valid_updates h (cs1 ++ cs2) <-> valid_updates h cs1 /\ valid_updates (final h cs1) cs2.
Proof.
  revert h. induction cs1 as [|c cs1 IH]; intros h; simpl; [tauto|].
  rewrite IH. change (final h (c :: cs1)) with (final (after (call c h)) cs1). tauto.
Qed.


Lemma isPure_loop_count hist idx nonPure :
  isPure_loop hist idx nonPure
  = bool_decide ((if nonPure then 1 else 0)
                 + length (filter (fun j => (cell 0 hist (Z.of_nat j) > 0)%Z) idx) <= 1).
Proof.
  revert nonPure. induction idx as [|j idx IH]; intros nonPure; cbn [isPure_loop].
  - rewrite filter_nil. destruct nonPure; reflexivity.
  - rewrite filter_cons. destruct (decide (cell 0 hist (Z.of_nat j) > 0)%Z) as [Hj|Hj].
    + rewrite (bool_decide_eq_true_2 _ Hj). destruct nonPure.
      * symmetry. apply bool_decide_eq_false_2. simpl. lia.
      * rewrite IH. apply bool_decide_ext. simpl. lia.
    + rewrite (bool_decide_eq_false_2 _ Hj). apply IH.
Qed.

Lemma filter_fmap_length {A B : Type} (f : A -> B) (P : B -> Prop) (R : A -> Prop)
    `{!forall y, Decision (P y)} `{!forall x, Decision (R x)} (l : list A) :
  Forall (fun x => P (f x) <-> R x) l ->
  length (filter P (f <$> l)) = length (filter R l).
Proof.
  induction 1 as [|x l Hx _ IH]; [done|].
  rewrite fmap_cons, !filter_cons.
  destruct (decide (P (f x))), (decide (R x)); simpl; tauto || lia.
Qed.

Lemma nonzero_bins_count h :
  Forall (fun c => 0 <= c)%Z (histogram h) ->
  nonzero_bins h
  = length (filter (fun j => (cell 0 (histogram h) (Z.of_nat j) > 0)%Z)
                   (seq 0 (Z.to_nat (bins h)))).
Proof.
  intros Hpos. unfold nonzero_bins, indices. apply filter_fmap_length.
  apply Forall_forall. intros j Hj. apply elem_of_seq in Hj.
  rewrite at_value_ok by lia.
  assert (0 <= cell 0 (histogram h) (Z.of_nat j))%Z; [|lia].
  unfold cell. destruct (histogram h !! Z.to_nat (Z.of_nat j)) as [c|] eqn:Hc; simpl; [|lia].
  by apply (Forall_lookup_1 _ _ _ _ Hpos Hc).
Qed.

(** C8. On a histogram whose counts are not negative, [isPure()] returns
    [true] exactly when at most one bin has a nonzero count (so also when
    there is no bin, or no count), and [false] exactly when two or more
    have; it leaves the object as it was. *)
Theorem isPure_spec h :
  Forall (fun c => 0 <= c)%Z (histogram h) ->
  let r := isPure h in
  (outcome r = Return true <-> nonzero_bins h <= 1) /\
  (outcome r = Return false <-> 2 <= nonzero_bins h) /\
  after r = h.
Proof.
  intros Hpos r.
  assert (Hr : r = mkRun (Return (bool_decide (nonzero_bins h <= 1))) h []).
  { subst r. rewrite nonzero_bins_count by done.
    destruct h as [b hist m ent te]. unfold isPure. run_monad.
    rewrite isPure_loop_count. reflexivity. }
  rewrite Hr. simpl. split; [|split; [|done]].
  - split.
    + intros Ht. injection Ht as Ht. by apply bool_decide_eq_true_1 in Ht.
    + intros Hn. by rewrite bool_decide_eq_true_2.
  - split.
    + intros Hf. injection Hf as Hf. apply bool_decide_eq_false_1 in Hf. lia.
    + intros Hn. rewrite bool_decide_eq_false_2; [done|lia].
Qed.

(** C3, as the code runs it. [addOne] and [subOne] evaluate [ENTROPY(mass)]
    at the mass before and after the update, whatever it is: in every
    reachable state a successful [addOne(i)] evaluates [fastlog2] first at
    the mass it finds, and a successful [subOne(i)] second at the mass it
    leaves.  On a fresh histogram with one bin, [addOne(0)] evaluates
    [fastlog2] at [0], [1], [1], and the [subOne(0)] after it at [1], [0]. *)
Theorem fastlog2_evaluated_at_zero :
  (forall h i, reachable h -> (0 <= i < bins h)%Z ->
     returned (addOne i h) /\
     exists rest, log2_args (addOne i h) = mass h :: rest) /\
  (forall h i, reachable h -> (0 <= i < bins h)%Z -> (0 < at_value h i)%Z ->
     returned (subOne i h) /\
     exists first rest,
       log2_args (subOne i h) = first :: mass (after (subOne i h)) :: rest) /\
  let h := after (construct 1) in
  let r := addOne 0 h in
  let r' := subOne 0 (after r) in
  outcome (getMass h) = Return (float_of_int 0) /\
  returned r /\
  log2_args r = [float_of_int 0; float_of_int 1; float_of_int 1] /\
  returned r' /\
  outcome (getMass (after r')) = Return (float_of_int 0) /\
  log2_args r' = [float_of_int 1; float_of_int 0].
Proof.
  split; [|split].
  - intros h i Hreach Hi. pose proof (reachable_wf h Hreach) as Hwf.
    pose proof (wf_index h i Hwf Hi). pose proof (wf_index_entropies h i Hwf Hi).
    rewrite addOne_ok by done. split; [done|]. by eexists.
  - intros h i Hreach Hi Hc. pose proof (reachable_wf h Hreach) as Hwf.
    rewrite at_value_ok in Hc by done.
    pose proof (wf_index h i Hwf Hi). pose proof (wf_index_entropies h i Hwf Hi).
    rewrite subOne_ok by done. split; [done|]. by eexists _, _.
  - vm_compute. repeat split; reflexivity.
Qed.

(** **** The mass from [2^24] on *)

Lemma single_bin_sum (b : nat) i (n : Z) :
  Z.to_nat i < b -> sumZ (store (replicate b 0%Z) i n) = n.
Proof.
  intros Hi.
  assert (Hc : cell 0%Z (replicate b 0%Z) i = 0%Z).
  { unfold cell. by rewrite lookup_replicate_2. }
  rewrite sumZ_store by (by rewrite length_replicate).
  rewrite sumZ_replicate, Hc. lia.
Qed.

(** After [n >= 2^24] calls of [addOne(i)] on a fresh histogram, bin [i]
    holds [n] and the mass is [2^24]. *)
Lemma addOne_repeat_saturated b i n :
  (0 <= i < b)%Z -> (2 ^ 24 <= n)%Z ->
  let h := final (after (construct b)) (replicate (Z.to_nat n) (AddOne i)) in
  reachable h /\ bins h = b /\
  outcome (at_ i h) = Return n /\ sum_at h = n /\
  outcome (getMass h) = Return (float_of_int (2 ^ 24)).
Proof.
  intros Hi Hn h.
  destruct (addOne_repeat b i (Z.to_nat n) Hi) as (_ & Hwf & Hb & Hh & Hm).
  fold h in Hwf, Hb, Hh, Hm. rewrite Z2Nat.id in Hh, Hm by lia.
  split; [apply reachable_final, reachable_fresh; lia|]. split; [done|]. split; [|split].
  - subst h. rewrite addOne_repeat_at by done. f_equal. lia.
  - rewrite sum_at_histogram, Hh by done. apply single_bin_sum. lia.
  - change (outcome (getMass h)) with (Return (mass h)). rewrite Hm. f_equal. f_equal. lia.
Qed.

(** Two calls later the mass is two behind the count. *)
Lemma mass_behind_count b i n :
  (0 <= i < b)%Z -> n = (2 ^ 24 + 2)%Z ->
  let g := final (after (construct b)) (replicate (Z.to_nat n) (AddOne i)) in
  outcome (at_ i g) = Return (2 ^ 24 + 2)%Z /\
  sum_at g = (2 ^ 24 + 2)%Z /\
  outcome (getMass g) = Return (float_of_int (2 ^ 24)) /\
  float_of_int (2 ^ 24) <> float_of_int (2 ^ 24 + 2).
Proof.
  intros Hi Hn g.
  destruct (addOne_repeat_saturated b i n Hi) as (_ & _ & Hat & Hsum & Hm); [lia|].
  fold g in Hat, Hsum, Hm. rewrite Hn in Hat, Hsum.
  split; [exact Hat|]. split; [exact Hsum|]. split; [exact Hm|].
  vm_compute. discriminate.
Qed.

(** At mass [2^24], [addOne(i)] leaves the mass and the [subOne(i)] after
    it takes one off. *)
Lemma addOne_subOne_saturated h i :
  wf h -> (0 <= i < bins h)%Z -> mass h = float_of_int (2 ^ 24) ->
  let r1 := addOne i h in
  let r2 := subOne i (after r1) in
  returned r1 /\ returned r2 /\
  outcome (getMass (after r2)) = Return (float_of_int (2 ^ 24 - 1)).
Proof.
  intros Hwf Hi Hm r1 r2.
  pose proof (wf_index h i Hwf Hi) as Hih.
  pose proof (wf_cell_nonneg h i Hwf) as Hc.
  destruct (addOne_wf h i Hwf Hi) as (Hr1 & Hb1 & Hh1 & Hm1 & Hwf1).
  fold r1 in Hr1, Hb1, Hh1, Hm1, Hwf1.
  assert (Hi1 : (0 <= i < bins (after r1))%Z) by (by rewrite Hb1).
  assert (Hc1 : cell 0%Z (histogram (after r1)) i = (cell 0 (histogram h) i + 1)%Z)
    by (rewrite Hh1; by apply cell_store_eq).
  destruct (subOne_wf (after r1) i Hwf1 Hi1) as (Hr2 & Hb2 & Hh2 & Hm2 & Hwf2); [lia|].
  fold r2 in Hr2, Hb2, Hh2, Hm2, Hwf2.
  unfold returned. rewrite Hr1, Hr2. split; [done|]. split; [done|].
  change (outcome (getMass (after r2))) with (Return (mass (after r2))).
  by rewrite Hm2, Hm1, Hm, fadd_one_saturated, fsub_one_saturated.
Qed.

(** The same from a fresh histogram, after [2^24] calls of [addOne(i)]. *)
Lemma addOne_subOne_mass_lost b i n :
  (0 <= i < b)%Z -> n = (2 ^ 24)%Z ->
  let g := final (after (construct b)) (replicate (Z.to_nat n) (AddOne i)) in
  let r1 := addOne i g in
  let r2 := subOne i (after r1) in
  reachable g /\
  returned r1 /\ returned r2 /\
  outcome (getMass g) = Return (float_of_int (2 ^ 24)) /\
  outcome (getMass (after r2)) = Return (float_of_int (2 ^ 24 - 1)) /\
  float_of_int (2 ^ 24 - 1) <> float_of_int (2 ^ 24).
Proof.
  intros Hi Hn g r1 r2.
  destruct (addOne_repeat_saturated b i n Hi) as (Hreach & Hb & _ & _ & Hm); [lia|].
  fold g in Hreach, Hb, Hm.
  assert (Hi' : (0 <= i < bins g)%Z) by (rewrite Hb; lia).
  assert (Hmg : mass g = float_of_int (2 ^ 24)) by (injection Hm as Hmg; exact Hmg).
  destruct (addOne_subOne_saturated g i (reachable_wf g Hreach) Hi' Hmg) as (H1 & H2 & Hm2).
  split; [exact Hreach|]. split; [exact H1|]. split; [exact H2|].
  split; [exact Hm|]. split; [exact Hm2|]. vm_compute. discriminate.
Qed.

End HistogramTheory.

(* ================================================================= *)
(** * The class with the approximation of [fastlog.h] *)

(** One bin, [16384] calls of [addOne(0)]: the entropy is [+0] after each. *)
Lemma single_bin_entropy_computed :
  entropy_stays_zero fastlog2_approx (Z.to_nat 16384)
    (mkHistogram 1 [0%Z] (float_of_int 0) [float_of_int 0] (float_of_int 0)) = true.
Proof. vm_compute. reflexivity. Qed.

Section SingleBin.

Variable fastlog2 : float -> float.
Variable uninit_int : nat -> Z.
Variable uninit_float : nat -> float.


End SingleBin.

(** [getEntropy()] in the scenario of C7 with the approximation of
    [fastlog.h]: [5.999999] (one unit in the last place below [6]) after
    the four [addOne], and [2] after the two [subOne]. *)
Lemma end_to_end_scenario_fastapprox :
  let h0 := after (construct junk_int junk_float 3) in
  let h1 := final fastlog2_approx junk_int junk_float h0
              [AddOne 0; AddOne 0; AddOne 1; AddOne 2] in
  let h2 := final fastlog2_approx junk_int junk_float h1 [SubOne 0; SubOne 0] in
  outcome (getMass h1) = Return (float_of_int 4) /\
  outcome (getEntropy h1) = Return (float_of_bits 0x40bffffe) /\
  float_of_int 6 = float_of_bits 0x40c00000 /\
  outcome (getMass h2) = Return (float_of_int 2) /\
  outcome (getEntropy h2) = Return (float_of_int 2).
Proof. vm_compute. repeat split; reflexivity. Qed.

(* ================================================================= *)
(** * The theorems at concrete histograms *)



Lemma error_contracts_witness :
  let h := after (addOne fastlog2_approx 0 (after (construct junk_int junk_float 2))) in
  (threw (resize junk_int junk_float (-1) h) InvalidArgument /\
   after (resize junk_int junk_float (-1) h) = h) /\
  (threw (addOne fastlog2_approx 2 h) IndexOutOfRange /\ after (addOne fastlog2_approx 2 h) = h) /\
  (threw (subOne fastlog2_approx 1 h) PreconditionViolation /\ after (subOne fastlog2_approx 1 h) = h).
Proof.
  intros h.
  destruct (error_contracts fastlog2_approx junk_int junk_float h 2 (-1)) as (Hresize & Hindex & _).
  destruct (error_contracts fastlog2_approx junk_int junk_float h 1 (-1)) as (_ & _ & Hempty).
  assert (Hbins : bins h = 2%Z) by reflexivity.
  assert (Hout : ~ (0 <= 2 < bins h)%Z) by (rewrite Hbins; lia).
  assert (Hin : (0 <= 1 < bins h)%Z) by (rewrite Hbins; lia).
  assert (Hzero : outcome (at_ 1 h) = Return 0%Z) by reflexivity.
  split; [exact (Hresize ltac:(lia))|]. split.
  - exact (proj1 (Hindex Hout)).
  - exact (Hempty Hin Hzero).
Defined.



Lemma isPure_spec_witness :
  let pure := mkHistogram 3 [0; 4; 0]%Z (float_of_int 4)
                [float_of_int 0; float_of_int (-8); float_of_int 0] (float_of_int 0) in
  let mixed := mkHistogram 3 [1; 4; 0]%Z (float_of_int 5)
                 [float_of_int 0; float_of_int (-8); float_of_int 0] (float_of_int 3) in
  (outcome (isPure pure) = Return true /\ after (isPure pure) = pure) /\
  (outcome (isPure mixed) = Return false /\ after (isPure mixed) = mixed) /\
  outcome (isPure default_histogram) = Return true.
Proof.
  intros pure mixed.
  destruct (isPure_spec pure) as (Hp & _ & Hafter);
    [repeat constructor; lia|].
  destruct (isPure_spec mixed) as (_ & Hm & Hafter');
    [repeat constructor; lia|].
  destruct (isPure_spec default_histogram) as (Hd & _ & _); [constructor|].
  split; [split; [apply Hp; vm_compute; lia|exact Hafter]|].
  split; [split; [apply Hm; vm_compute; lia|exact Hafter']|].
  apply Hd. vm_compute. lia.
Defined.




(** C2 fails for [newBins = 0]: [resize(0)] skips [reset()], so a histogram
    that held observations keeps its mass and its entropy although it has
    no bin left. *)
Lemma resize_zero_keeps_scalars :
  let h := final fastlog2_approx junk_int junk_float
             (after (construct junk_int junk_float 2)) [AddOne 0; AddOne 1] in
  let r := resize junk_int junk_float 0 h in
  returned r /\
  outcome (getSize (after r)) = Return 0%Z /\
  histogram (after r) = [] /\ entropies (after r) = [] /\
  outcome (getMass (after r)) = Return (float_of_int 2) /\
  outcome (getEntropy (after r)) = Return (float_of_int 2).
Proof. vm_compute. repeat split; reflexivity. Qed.
(* ================================================================= *)
(** * Properties of the permutation helpers *)

Module UtilPermutationTheory.
Import UtilPermutation.

Lemma cells_seq {A : Type} (d : A) (l : list A) :
  (fun i => cell d l (Z.of_nat i)) <$> seq 0 (length l) = l.
Proof.
  apply list_eq. intros j. rewrite list_lookup_fmap.
  destruct (decide (j < length l)) as [Hj|Hj].
  - rewrite lookup_seq_lt by done. simpl. unfold cell. rewrite Nat2Z.id.
    destruct (lookup_lt_is_Some_2 _ _ Hj) as [x ->]. done.
  - rewrite lookup_seq_ge by lia. rewrite lookup_ge_None_2 by lia. done.
Qed.

Lemma cell_lookup {A : Type} (d : A) (l : list A) (i : nat) x :
  l !! i = Some x -> cell d l (Z.of_nat i) = x.
Proof. intros Hx. unfold cell. by rewrite Nat2Z.id, Hx. Qed.

(** A flag is set after [check[s] = true] exactly where it was set before,
    and at [s]. *)
Lemma check_store (check : list bool) (s v : Z) :
  (0 <= s)%Z -> (0 <= v)%Z -> Z.to_nat s < length check ->
  cell false (store check s true) v = false <-> v ≠ s /\ cell false check v = false.
Proof.
  intros Hs Hv Hlen. unfold cell, store.
  destruct (decide (v = s)) as [->|Hne].
  - rewrite list_lookup_insert_eq by done. simpl. split; [done|]. intros [? _]. done.
  - rewrite list_lookup_insert_ne by lia. tauto.
Qed.

Lemma isValidPermutation_loop_spec sigma idx check :
  length check = length sigma ->
  isValidPermutation_loop sigma idx check = true <->
  Forall (fun s => 0 <= s < Z.of_nat (length sigma))%Z
         ((fun i => cell 0%Z sigma (Z.of_nat i)) <$> idx) /\
  NoDup ((fun i => cell 0%Z sigma (Z.of_nat i)) <$> idx) /\
  Forall (fun s => cell false check s = false)
         ((fun i => cell 0%Z sigma (Z.of_nat i)) <$> idx).
Proof.
  revert check. induction idx as [|i idx IH]; intros check Hlen.
  - simpl. split; [|done]. intros _. repeat split; constructor.
  - cbn [isValidPermutation_loop]. rewrite fmap_cons.
    set (s := cell 0%Z sigma (Z.of_nat i)).
    set (vals := (fun i => cell 0%Z sigma (Z.of_nat i)) <$> idx) in *.
    rewrite !Forall_cons, NoDup_cons.
    destruct (decide (0 <= s < Z.of_nat (length sigma))%Z) as [Hs|Hs].
    + rewrite (bool_decide_eq_false_2 (s < 0)%Z) by lia.
      rewrite (bool_decide_eq_false_2 (s >= Z.of_nat (length sigma))%Z) by lia.
      cbn [orb].
      destruct (cell false check s) eqn:Hc.
      * split; [done|]. intros (_ & _ & Hf & _). done.
      * rewrite IH by (by rewrite length_store). fold vals.
        split.
        -- intros (Hr & Hnd & Hck). split; [by split|]. rewrite Forall_forall in Hr, Hck.
           assert (Hall : forall v, v ∈ vals -> v ≠ s /\ cell false check v = false).
           { intros v Hv. apply check_store; [lia|by apply Hr|lia|by apply Hck]. }
           split; [split; [|done]|split; [done|]].
           ++ intros Hin. by destruct (Hall s Hin).
           ++ apply Forall_forall. intros v Hv. by destruct (Hall v Hv).
        -- intros ((_ & Hr) & (Hnin & Hnd) & (_ & Hck)).
           split; [done|]. split; [done|]. rewrite Forall_forall in Hr, Hck.
           apply Forall_forall. intros v Hv.
           apply check_store; [lia|by apply Hr|lia|].
           split; [|by apply Hck]. intros ->. done.
    + assert (bool_decide (s < 0)%Z || bool_decide (s >= Z.of_nat (length sigma))%Z = true)
        as ->.
      { destruct (decide (s < 0)%Z).
        - by rewrite bool_decide_eq_true_2.
        - rewrite (bool_decide_eq_true_2 (s >= _)%Z) by lia. apply orb_true_r. }
      split; [done|]. intros ((Hr & _) & _). done.
Qed.

Lemma isValidPermutation_in_S_N sigma :
  isValidPermutation sigma = true <-> in_S_N sigma.
Proof.
  unfold isValidPermutation, in_S_N.
  rewrite isValidPermutation_loop_spec by apply length_replicate.
  rewrite cells_seq. split; [tauto|]. intros [Hr Hnd].
  split; [done|]. split; [done|].
  apply Forall_forall. intros s _. unfold cell.
  destruct (replicate (length sigma) false !! Z.to_nat s) as [b|] eqn:Hb; [|done].
  apply lookup_replicate in Hb as [-> _]. done.
Qed.

Lemma in_S_N_Permutation sigma :
  in_S_N sigma <-> sigma ≡ₚ seqZ 0 (Z.of_nat (length sigma)).
Proof.
  split.
  - intros [Hr Hnd]. apply submseteq_length_Permutation.
    + apply NoDup_submseteq; [done|]. intros s Hs.
      rewrite Forall_forall in Hr. apply elem_of_seqZ. specialize (Hr s Hs). lia.
    + rewrite length_seqZ. lia.
  - intros Hp. split.
    + apply Forall_forall. intros s Hs. rewrite Hp in Hs.
      apply elem_of_seqZ in Hs. lia.
    + rewrite Hp. apply NoDup_seqZ.
Qed.

(** X1. [isValidPermutation(sigma)] is [true] exactly when [sigma] is a
    rearrangement of [0, ..., N-1], [N] its length; that is, when every
    entry lies in that range and no entry occurs twice. *)
Theorem isValidPermutation_spec sigma :
  (isValidPermutation sigma = true <-> sigma ≡ₚ seqZ 0 (Z.of_nat (length sigma))) /\
  (isValidPermutation sigma = true <->
     Forall (fun s => 0 <= s < Z.of_nat (length sigma))%Z sigma /\ NoDup sigma).
Proof.
  split.
  - rewrite isValidPermutation_in_S_N. apply in_S_N_Permutation.
  - apply isValidPermutation_in_S_N.
Qed.

Section PermuteTheory.

Context {T : Type}.
Variable value_init : T.

Local Abbreviation permute := (permute value_init).

Implicit Types (sigma tau : list Z) (v out : list T).

(** The loop of [permute], for any images [img] and values [val]. *)
Lemma scatter_length (img : nat -> Z) (val : nat -> T) idx out :
  length (foldl (fun out i => store out (img i) (val i)) out idx) = length out.
Proof.
  revert out. induction idx as [|i idx IH]; intros out; [done|].
  simpl. by rewrite IH, length_store.
Qed.

Lemma scatter_other (img : nat -> Z) (val : nat -> T) idx out k :
  Forall (fun i => Z.to_nat (img i) ≠ k) idx ->
  foldl (fun out i => store out (img i) (val i)) out idx !! k = out !! k.
Proof.
  revert out. induction idx as [|i idx IH]; intros out Hk; [done|].
  apply Forall_cons in Hk as [Hi Hk]. simpl. rewrite IH by done.
  unfold store. by rewrite list_lookup_insert_ne.
Qed.

Lemma scatter_lookup (img : nat -> Z) (val : nat -> T) idx out i :
  NoDup ((fun i => Z.to_nat (img i)) <$> idx) ->
  i ∈ idx -> Z.to_nat (img i) < length out ->
  foldl (fun out i => store out (img i) (val i)) out idx !! Z.to_nat (img i)
  = Some (val i).
Proof.
  revert out. induction idx as [|j idx IH]; intros out Hnd Hi Hlen.
  - by apply elem_of_nil in Hi.
  - rewrite fmap_cons in Hnd. apply NoDup_cons in Hnd as [Hj Hnd]. simpl.
    destruct (decide (Z.to_nat (img i) = Z.to_nat (img j))) as [Heq|Hne].
    + rewrite scatter_other.
      * rewrite Heq. unfold store. rewrite list_lookup_insert_eq by lia.
        apply elem_of_cons in Hi as [->|Hi]; [done|].
        exfalso. apply Hj. rewrite <- Heq. by apply (list_elem_of_fmap_2 (fun i => Z.to_nat (img i))).
      * apply Forall_forall. intros i' Hi' Heq'. apply Hj. rewrite <- Heq, <- Heq'.
        by apply (list_elem_of_fmap_2 (fun i => Z.to_nat (img i))).
    + apply elem_of_cons in Hi as [->|Hi]; [done|].
      apply IH; [done|done|by rewrite length_store].
Qed.

Lemma vector_resize_length out n : length (vector_resize value_init out n) = n.
Proof.
  unfold vector_resize. rewrite length_app, length_take, length_replicate. lia.
Qed.

Lemma in_S_N_images sigma :
  in_S_N sigma ->
  NoDup ((fun i => Z.to_nat (cell 0%Z sigma (Z.of_nat i))) <$> seq 0 (length sigma)).
Proof.
  intros [Hr Hnd].
  rewrite (list_fmap_compose (fun i => cell 0%Z sigma (Z.of_nat i)) Z.to_nat), cells_seq.
  apply NoDup_fmap_2_strong; [|done].
  rewrite Forall_forall in Hr. intros x y Hx Hy Heq.
  pose proof (Hr x Hx). pose proof (Hr y Hy). lia.
Qed.

(** The vector [out] holds [v], rearranged by [sigma]. *)
Lemma permuted_unique sigma v out1 out2 :
  in_S_N sigma -> length sigma = length v ->
  length out1 = length v -> length out2 = length v ->
  (forall i s x, sigma !! i = Some s -> v !! i = Some x -> out1 !! Z.to_nat s = Some x) ->
  (forall i s x, sigma !! i = Some s -> v !! i = Some x -> out2 !! Z.to_nat s = Some x) ->
  out1 = out2.
Proof.
  intros Hs Hlen Hl1 Hl2 H1 H2. apply list_eq. intros k.
  destruct (decide (k < length v)) as [Hk|Hk].
  - assert (Hin : Z.of_nat k ∈ sigma).
    { apply in_S_N_Permutation in Hs. rewrite Hs. apply elem_of_seqZ. lia. }
    apply list_elem_of_lookup in Hin as [i Hi].
    destruct (lookup_lt_is_Some_2 v i) as [x Hx];
      [rewrite <- Hlen; by eapply lookup_lt_Some|].
    rewrite <- (Nat2Z.id k). by rewrite (H1 i _ x Hi Hx), (H2 i _ x Hi Hx).
  - by rewrite !lookup_ge_None_2 by lia.
Qed.

Lemma permute_ok sigma v out :
  length sigma = length v -> in_S_N sigma ->
  exists out',
    permute sigma v out false = (Return tt, out') /\
    length out' = length v /\
    (forall i s x, sigma !! i = Some s -> v !! i = Some x -> out' !! Z.to_nat s = Some x).
Proof.
  intros Hlen Hs. unfold UtilPermutation.permute.
  rewrite (bool_decide_eq_true_2 _ Hlen).
  rewrite (proj2 (isValidPermutation_in_S_N sigma) Hs). cbn [negb].
  eexists. split; [reflexivity|]. split.
  - by rewrite scatter_length, vector_resize_length.
  - intros i s x Hi Hx.
    rewrite <- (cell_lookup 0%Z sigma i s Hi), <- (cell_lookup value_init v i x Hx).
    apply (scatter_lookup (fun i => cell 0%Z sigma (Z.of_nat i))
                          (fun i => cell value_init v (Z.of_nat i))).
    + by apply in_S_N_images.
    + apply elem_of_seq. apply lookup_lt_Some in Hi. lia.
    + rewrite vector_resize_length, (cell_lookup 0%Z sigma i s Hi).
      destruct Hs as [Hr _]. rewrite Forall_forall in Hr.
      specialize (Hr s (list_elem_of_lookup_2 _ _ _ Hi)). lia.
Qed.

Lemma permuted_Permutation sigma v out :
  in_S_N sigma -> length sigma = length v -> length out = length v ->
  (forall i s x, sigma !! i = Some s -> v !! i = Some x -> out !! Z.to_nat s = Some x) ->
  out ≡ₚ v.
Proof.
  intros Hs Hlen Hlo Hout. symmetry. apply Permutation_inj. split; [done|].
  exists (fun i => if decide (i < length v)
                   then Z.to_nat (cell 0%Z sigma (Z.of_nat i)) else i).
  destruct Hs as [Hr Hnd]. rewrite Forall_forall in Hr.
  assert (Hcell : forall i, i < length v ->
            sigma !! i = Some (cell 0%Z sigma (Z.of_nat i)) /\
            (0 <= cell 0%Z sigma (Z.of_nat i) < Z.of_nat (length v))%Z).
  { intros i Hi. destruct (lookup_lt_is_Some_2 sigma i) as [s Hsi]; [lia|].
    rewrite (cell_lookup 0%Z sigma i s Hsi). split; [done|].
    rewrite <- Hlen. apply Hr. by eapply list_elem_of_lookup_2. }
  split.
  - intros i j. repeat case_decide; intros Heq.
    + destruct (Hcell i) as [Hi ?]; [done|]. destruct (Hcell j) as [Hj ?]; [done|].
      eapply NoDup_lookup; [exact Hnd|exact Hi|].
      rewrite Hj. f_equal. lia.
    + destruct (Hcell i); [done|]. lia.
    + destruct (Hcell j); [done|]. lia.
    + done.
  - intros i. case_decide as Hi.
    + destruct (Hcell i Hi) as [Hsi _].
      destruct (lookup_lt_is_Some_2 v i Hi) as [x Hx].
      rewrite Hx. symmetry. by apply (Hout i).
    + by rewrite !lookup_ge_None_2 by lia.
Qed.



Lemma in_S_N_seqZ n : in_S_N (seqZ 0 (Z.of_nat n)).
Proof. apply in_S_N_Permutation. by rewrite length_seqZ, Nat2Z.id. Qed.

(** X4. The identity permutation copies [in] to [out]. *)
Theorem permute_identity v out :
  permute (seqZ 0 (Z.of_nat (length v))) v out false = (Return tt, v).
Proof.
  assert (Hlen : length (seqZ 0 (Z.of_nat (length v))) = length v)
    by (by rewrite length_seqZ, Nat2Z.id).
  destruct (permute_ok _ v out Hlen (in_S_N_seqZ _)) as (out' & -> & Hlo & Hout).
  f_equal.
  apply (permuted_unique (seqZ 0 (Z.of_nat (length v))) v); [apply in_S_N_seqZ|done..|].
  intros i s x Hi Hx. apply lookup_seqZ in Hi as [-> _].
  by rewrite Z.add_0_l, Nat2Z.id.
Qed.

Lemma in_S_N_compose tau sigma :
  in_S_N tau -> in_S_N sigma -> length tau = length sigma ->
  in_S_N (compose tau sigma).
Proof.
  intros [Hrt Hndt] [Hrs Hnds] Hlen. unfold compose.
  rewrite Forall_forall in Hrt, Hrs.
  assert (Hcell : forall s, s ∈ sigma ->
            tau !! Z.to_nat s = Some (cell 0%Z tau s)).
  { intros s Hs. specialize (Hrs s Hs).
    destruct (lookup_lt_is_Some_2 tau (Z.to_nat s)) as [t Ht]; [lia|].
    unfold cell. by rewrite Ht. }
  split.
  - rewrite length_fmap. apply Forall_forall. intros t Ht.
    apply list_elem_of_fmap in Ht as (s & -> & Hs).
    rewrite <- Hlen. apply Hrt. eapply list_elem_of_lookup_2. by apply Hcell.
  - apply NoDup_fmap_2_strong; [|done]. intros x y Hx Hy Heq.
    pose proof (Hcell x Hx) as Hcx. pose proof (Hcell y Hy) as Hcy.
    rewrite Heq in Hcx.
    pose proof (NoDup_lookup _ _ _ _ Hndt Hcx Hcy).
    pose proof (Hrs x Hx). pose proof (Hrs y Hy). lia.
Qed.


End PermuteTheory.

End UtilPermutationTheory.

(* ================================================================= *)
(** * [hammingDist] as a metric *)

Module HammingMetric.
Import Util.

Section Metric.

Context {T : Type} `{EqDecision T}.
Implicit Types v : list T.

Lemma filter_length_all (P : nat -> Prop) `{!forall i, Decision (P i)} idx :
  Forall P idx -> length (filter P idx) = length idx.
Proof.
  induction 1 as [|i idx Hi _ IH]; [done|].
  rewrite filter_cons_True by done. simpl. by rewrite IH.
Qed.

Lemma filter_length_none (P : nat -> Prop) `{!forall i, Decision (P i)} idx :
  Forall (fun i => ~ P i) idx -> length (filter P idx) = 0.
Proof.
  induction 1 as [|i idx Hi _ IH]; [done|].
  by rewrite filter_cons_False.
Qed.

Lemma filter_length_le (P Q R : nat -> Prop)
    `{!forall i, Decision (P i)} `{!forall i, Decision (Q i)} `{!forall i, Decision (R i)} idx :
  (forall i, P i -> Q i \/ R i) ->
  length (filter P idx) <= length (filter Q idx) + length (filter R idx).
Proof.
  intros HPQR. induction idx as [|i idx IH]; [done|].
  rewrite !filter_cons.
  destruct (decide (P i)) as [HP|HP], (decide (Q i)), (decide (R i)); simpl; try lia.
  destruct (HPQR i HP); done.
Qed.

(** The distance counts the positions, below any bound [K] past both
    lengths, where the two lookups differ: a missing entry differs from a
    present one. *)
Lemma hamming_spec_count v1 v2 K :
  length v1 `max` length v2 <= K ->
  hamming_spec v1 v2 = length (filter (fun i => v1 !! i ≠ v2 !! i) (seq 0 K)).
Proof.
  intros HK. unfold hamming_spec.
  set (m := length v1 `min` length v2). set (M := length v1 `max` length v2) in *.
  replace K with (m + ((M - m) + (K - M))) by lia.
  rewrite !seq_app, !filter_app, !length_app.
  rewrite (filter_length_all _ (seq (0 + m) (M - m))).
  - rewrite (filter_length_none _ (seq (0 + m + (M - m)) (K - M))).
    + rewrite length_seq. lia.
    + apply Forall_forall. intros i Hi Hne. apply elem_of_seq in Hi.
      apply Hne. rewrite !lookup_ge_None_2 by lia. done.
  - apply Forall_forall. intros i Hi. apply elem_of_seq in Hi.
    destruct (decide (length v1 <= length v2)).
    + rewrite (lookup_ge_None_2 v1) by lia.
      destruct (lookup_lt_is_Some_2 v2 i) as [x ->]; [lia|done].
    + rewrite (lookup_ge_None_2 v2) by lia.
      destruct (lookup_lt_is_Some_2 v1 i) as [x ->]; [lia|done].
Qed.

(** X6. [hammingDist] satisfies the triangle inequality on vectors of any
    lengths, and it lies between the difference of the two lengths and the
    larger length. *)
Theorem hammingDist_metric v1 v2 v3 :
  hammingDist v1 v3 <= hammingDist v1 v2 + hammingDist v2 v3 /\
  length v1 `max` length v2 - length v1 `min` length v2 <= hammingDist v1 v2 /\
  hammingDist v1 v2 <= length v1 `max` length v2.
Proof.
  rewrite !UtilTheory.hammingDist_unfold. split; [|split].
  - set (K := length v1 `max` (length v2 `max` length v3)).
    rewrite (hamming_spec_count v1 v3 K), (hamming_spec_count v1 v2 K),
      (hamming_spec_count v2 v3 K) by lia.
    apply filter_length_le. intros i Hne.
    destruct (decide (v1 !! i = v2 !! i)) as [Heq|]; [|by left].
    right. by rewrite <- Heq.
  - unfold hamming_spec. lia.
  - rewrite (hamming_spec_count v1 v2 _ (Nat.le_refl _)).
    etrans; [apply length_filter|]. by rewrite length_seq.
Qed.

End Metric.
End HammingMetric.
(* ================================================================= *)
(** * Further properties of [EfficientEntropyHistogram] *)

Section HistogramCopies.

Variable uninit_int : nat -> Z.
Variable uninit_float : nat -> float.

Local Abbreviation resize := (resize uninit_int uninit_float).
Local Abbreviation construct := (construct uninit_int uninit_float).
Local Abbreviation copy_construct := (copy_construct uninit_int uninit_float).
Local Abbreviation operator_assign := (operator_assign uninit_int uninit_float).

Implicit Types (h other : EfficientEntropyHistogram).

Lemma fill_with_lookup {A : Type} (g : nat -> A) idx (l : list A) j :
  foldl (fun l k => store l (Z.of_nat k) (g k)) l idx !! j
  = if bool_decide (j ∈ idx /\ j < length l) then Some (g j) else l !! j.
Proof.
  revert l. induction idx as [|k idx IH]; intros l; cbn [foldl].
  - rewrite bool_decide_eq_false_2; [done|]. intros [Hin _]. by apply elem_of_nil in Hin.
  - rewrite IH, length_store. unfold store. rewrite Nat2Z.id.
    destruct (decide (j ∈ idx /\ j < length l)) as [Hj|Hj].
    + rewrite !bool_decide_eq_true_2; [done| |done]. split; [|tauto]. apply elem_of_cons. tauto.
    + rewrite (bool_decide_eq_false_2 _ Hj).
      destruct (decide (j = k)) as [->|Hne].
      * destruct (decide (k < length l)) as [Hk|Hk].
        -- rewrite list_lookup_insert_eq by done.
           rewrite bool_decide_eq_true_2; [done|]. split; [|done]. apply elem_of_cons. tauto.
        -- rewrite list_insert_ge by lia.
           rewrite bool_decide_eq_false_2; [done|]. tauto.
      * rewrite list_lookup_insert_ne by done.
        rewrite bool_decide_eq_false_2; [done|].
        intros [Hin Hlt]. apply elem_of_cons in Hin as [?|?]; tauto.
Qed.

(** Copying the cells [0 .. n-1] of [src] into an [n]-cell array. *)
Lemma fill_from {A : Type} (d : A) (src l : list A) :
  length l = length src ->
  foldl (fun l k => store l (Z.of_nat k) (cell d src (Z.of_nat k))) l (seq 0 (length src))
  = src.
Proof.
  intros Hlen. apply list_eq. intros j.
  rewrite (fill_with_lookup (fun k => cell d src (Z.of_nat k))).
  destruct (decide (j < length src)) as [Hj|Hj].
  - rewrite bool_decide_eq_true_2; [|split; [apply elem_of_seq; lia|lia]].
    destruct (lookup_lt_is_Some_2 _ _ Hj) as [x Hx].
    by rewrite (UtilPermutationTheory.cell_lookup d src j x Hx).
  - rewrite bool_decide_eq_false_2 by (intros [_ ?]; lia).
    by rewrite !lookup_ge_None_2 by lia.
Qed.

Lemma copy_loop other idx h :
  for_ idx (fun i =>
     histogram_store (Z.of_nat i) (cell 0%Z (histogram other) (Z.of_nat i)) ;;
     entropies_store (Z.of_nat i) (cell (float_of_int 0) (entropies other) (Z.of_nat i))) h
  = mkRun (Return tt)
      (mkHistogram (bins h)
         (foldl (fun l k => store l (Z.of_nat k) (cell 0%Z (histogram other) (Z.of_nat k)))
                (histogram h) idx)
         (mass h)
         (foldl (fun l k => store l (Z.of_nat k) (cell (float_of_int 0) (entropies other) (Z.of_nat k)))
                (entropies h) idx)
         (totalEntropy h))
      [].
Proof.
  revert h. induction idx as [|k idx IH]; intros [b hist m ent te]; [reflexivity|].
  cbn [for_ foldl]. unfold mbind at 1, M_bind. run_monad. rewrite IH. reflexivity.
Qed.

(** The body shared by the copy constructor and the assignment, after
    [resize(other.bins)] has left an object with the bin count of [other]. *)
Lemma copy_body other h :
  sized other -> bins h = bins other ->
  length (histogram h) = Z.to_nat (bins h) ->
  length (entropies h) = Z.to_nat (bins h) ->
  (b ← gets bins;
   for_ (seq 0 (Z.to_nat b)) (fun i =>
     histogram_store (Z.of_nat i) (cell 0%Z (histogram other) (Z.of_nat i)) ;;
     entropies_store (Z.of_nat i) (cell (float_of_int 0) (entropies other) (Z.of_nat i))) ;;
   modify (set_totalEntropy (totalEntropy other)) ;;
   modify (set_mass (mass other))) h
  = mkRun (Return tt) other [].
Proof.
  intros (Hb & Hho & Heo) Hbins Hh He.
  unfold mbind at 1 2 3, M_bind. cbv beta iota delta [gets]. rewrite copy_loop.
  destruct h as [b hist m ent te], other as [b' hist' m' ent' te'].
  simpl in *. subst b'. rewrite <- Hho at 1. rewrite <- Heo at 1.
  rewrite !fill_from by congruence. reflexivity.
Qed.

Lemma bind_run {A B : Type} (m : M A) (f : A -> M B) h a h' l :
  m h = mkRun (Return a) h' l ->
  (m ≫= f) h = mkRun (outcome (f a h')) (after (f a h')) (l ++ log2_args (f a h')).
Proof. intros Hm. unfold mbind, M_bind. rewrite Hm. by destruct (f a h'). Qed.

Lemma resize_sized h n :
  sized h -> (0 <= n)%Z ->
  exists h', resize n h = mkRun (Return tt) h' [] /\ bins h' = n /\
             length (histogram h') = Z.to_nat n /\ length (entropies h') = Z.to_nat n.
Proof.
  intros (Hb & Hh & He) Hn. destruct (decide (n = 0%Z)) as [->|Hne].
  - rewrite resize_zero. eexists. split; [reflexivity|].
    case_bool_decide as Hb0; simpl; [done|].
    assert (bins h = 0%Z) as Hz by (destruct (decide (bins h = 0%Z)); [done|exfalso; auto]).
    rewrite Hz in Hh, He. done.
  - rewrite resize_pos by lia. eexists. split; [reflexivity|]. simpl.
    by rewrite !length_replicate.
Qed.

(** X7. The copy constructor makes an object with exactly the fields of
    [other], and so does the assignment, whatever the object held before;
    assigning an object to itself leaves it as it is.  None of them
    evaluates a logarithm. *)
Theorem copy_exact other h :
  sized other -> sized h ->
  copy_construct other = mkRun (Return tt) other [] /\
  operator_assign other false h = mkRun (Return tt) other [] /\
  operator_assign h true h = mkRun (Return tt) h [].
Proof.
  intros Ho Hh. split; [|split; [|done]].
  - assert (Hd : sized default_histogram) by (by repeat split).
    destruct (resize_sized default_histogram (bins other) Hd) as (h' & Hr & Hb' & Hh' & He');
      [apply Ho|].
    unfold copy_construct.
    rewrite (bind_run _ _ _ _ _ _ Hr).
    rewrite copy_body by (done || congruence). reflexivity.
  - destruct (resize_sized h (bins other) Hh) as (h' & Hr & Hb' & Hh' & He'); [apply Ho|].
    unfold operator_assign. cbn [negb].
    rewrite (bind_run _ _ _ _ _ _ Hr).
    rewrite copy_body by (done || congruence). reflexivity.
Qed.

End HistogramCopies.

Section HistogramExtras.

Variable fastlog2 : float -> float.
Variable uninit_int : nat -> Z.
Variable uninit_float : nat -> float.

Local Abbreviation ENTROPY_int_value := (ENTROPY_int_value fastlog2).
Local Abbreviation addOne := (addOne fastlog2).
Local Abbreviation subOne := (subOne fastlog2).
Local Abbreviation resize := (resize uninit_int uninit_float).
Local Abbreviation construct := (construct uninit_int uninit_float).
Local Abbreviation call := (call fastlog2 uninit_int uninit_float).
Local Abbreviation bin_entropy := (bin_entropy fastlog2).
Local Abbreviation wf := (wf fastlog2).
Local Abbreviation reachable := (reachable fastlog2 uninit_int uninit_float).

Implicit Types (h : EfficientEntropyHistogram) (i : Z).

(** X8. The representation invariant of every reachable object: the bin
    count is not negative, both arrays have that many cells, and the cached
    contribution of a bin is [0] for a count of [0] and [ENTROPY(count)]
    otherwise. *)
Theorem reachable_representation h :
  reachable h ->
  (0 <= value 0%Z (getSize h))%Z /\
  length (histogram h) = Z.to_nat (bins h) /\
  length (entropies h) = Z.to_nat (bins h) /\
  (forall i, (0 <= i < bins h)%Z ->
     exists c, outcome (at_ i h) = Return c /\
       cell (float_of_int 0) (entropies h) i
       = if decide (c = 0%Z) then float_of_int 0 else ENTROPY_int_value c).
Proof.
  intros Hreach.
  pose proof (reachable_wf _ _ _ h Hreach) as Hwf.
  pose proof (wf_entropies_length _ h Hwf) as Hel.
  split; [apply Hwf|]. split; [apply Hwf|]. split; [done|].
  intros i Hi. exists (cell 0%Z (histogram h) i).
  pose proof (wf_cell_nonneg _ h i Hwf) as Hc.
  pose proof (wf_index _ h i Hwf Hi) as Hih.
  rewrite at_ok by done. split; [done|].
  destruct Hwf as (_ & _ & _ & ->).
  rewrite (cell_fmap bin_entropy 0%Z) by done.
  unfold bin_entropy. case_decide as Hz.
  + rewrite Hz. reflexivity.
  + by rewrite bool_decide_eq_false_2 by lia.
Qed.

(** X11. [resize] to a positive bin count forgets the object: from any
    state it returns and leaves exactly the freshly constructed histogram
    of that size, with every count, cached contribution, the mass and the
    entropy at [0]. *)
Theorem resize_positive_fresh h n :
  (0 < n)%Z ->
  resize n h = construct n /\
  returned (resize n h) /\
  outcome (getSize (after (resize n h))) = Return n /\
  (forall i, (0 <= i < n)%Z ->
     outcome (at_ i (after (resize n h))) = Return 0%Z /\
     cell (float_of_int 1) (entropies (after (resize n h))) i = float_of_int 0) /\
  outcome (getMass (after (resize n h))) = Return (float_of_int 0) /\
  outcome (getEntropy (after (resize n h))) = Return (float_of_int 0).
Proof.
  intros Hn. rewrite construct_ok by lia. rewrite resize_pos by done.
  split; [done|]. split; [done|]. split; [done|]. split; [|done].
  intros i Hi. rewrite at_ok by done. cbn [after outcome histogram entropies]. unfold cell.
  rewrite !lookup_replicate_2 by lia. done.
Qed.

(** X12. [reset] on an object whose arrays have [bins] cells returns and
    leaves exactly the freshly constructed histogram of the same size; in
    particular it clears the mass and entropy that [resize(0)] left. *)
Theorem reset_fresh h :
  sized h ->
  reset h = mkRun (Return tt) (after (construct (bins h))) [].
Proof.
  intros (Hb & Hh & He). rewrite reset_run, construct_ok by done. reflexivity.
Qed.

(** X13. On a reachable object only a successful [resize] changes the bin
    count: [addOne], [subOne], [reset] and a failing [resize] keep it, and
    [resize(n)] with [n >= 0] makes it [n]. *)
Theorem size_changes_only_by_resize h c :
  reachable h ->
  outcome (getSize (after (call c h)))
  = Return (match c with
            | Resize n => if bool_decide (0 <= n)%Z then n else bins h
            | _ => bins h
            end).
Proof.
  intros Hreach.
  pose proof (reachable_wf _ _ _ h Hreach) as Hwf.
  pose proof (wf_entropies_length _ h Hwf) as Hel.
  destruct c as [i|i| |n].
  - change (call (AddOne i) h) with (addOne i h).
    destruct (decide (0 <= i < bins h)%Z) as [Hi|Hi].
    + pose proof (wf_index _ h i Hwf Hi). by rewrite addOne_ok by (done || lia).
    + by rewrite addOne_fail.
  - change (call (SubOne i) h) with (subOne i h).
    destruct (decide (0 <= i < bins h)%Z) as [Hi|Hi]; [|by rewrite subOne_fail_index].
    destruct (decide (0 < cell 0 (histogram h) i)%Z) as [Hc|Hc].
    + pose proof (wf_index _ h i Hwf Hi). by rewrite subOne_ok by (done || lia).
    + by rewrite subOne_fail_empty by (done || lia).
  - change (call Reset h) with (reset h). by rewrite reset_run by (done || apply Hwf).
  - change (call (Resize n) h) with (resize n h).
    destruct (Z.lt_trichotomy n 0) as [Hn|[->|Hn]].
    + rewrite resize_fail by done. by rewrite bool_decide_eq_false_2 by lia.
    + rewrite resize_zero. by case_bool_decide.
    + rewrite resize_pos by done. by rewrite bool_decide_eq_true_2 by lia.
Qed.

(** X14. In every reachable state and for every valid bin [i] with a
    positive count, [subOne(i)] followed at once by [addOne(i)] returns
    twice and restores every count ([at(i)] with them) and every cached
    contribution; it restores [getMass()] when the mass was an integer
    from [1] to [2^24]. *)
Theorem subOne_addOne_inverse h i c :
  reachable h -> (0 <= i < bins h)%Z ->
  outcome (at_ i h) = Return c -> (0 < c)%Z ->
  let r1 := subOne i h in
  let r2 := addOne i (after r1) in
  returned r1 /\ returned r2 /\
  outcome (at_ i (after r2)) = outcome (at_ i h) /\
  histogram (after r2) = histogram h /\
  entropies (after r2) = entropies h /\
  (forall k, (0 < k <= 2 ^ 24)%Z -> mass h = float_of_int k ->
             outcome (getMass (after r2)) = outcome (getMass h)).
Proof.
  intros Hreach Hi Hat Hc r1 r2.
  pose proof (reachable_wf _ _ _ h Hreach) as Hwf.
  rewrite at_ok in Hat by done. simpl in Hat. injection Hat as Hat. subst c.
  pose proof (wf_index _ h i Hwf Hi) as Hih.
  destruct (subOne_wf _ h i Hwf Hi Hc) as (Hr1 & Hb1 & Hh1 & Hm1 & Hwf1).
  fold r1 in Hr1, Hb1, Hh1, Hm1, Hwf1.
  assert (Hi1 : (0 <= i < bins (after r1))%Z) by (by rewrite Hb1).
  assert (Hc1 : cell 0%Z (histogram (after r1)) i = (cell 0 (histogram h) i - 1)%Z)
    by (rewrite Hh1; by apply cell_store_eq).
  destruct (addOne_wf _ (after r1) i Hwf1 Hi1) as (Hr2 & Hb2 & Hh2 & Hm2 & Hwf2).
  fold r2 in Hr2, Hb2, Hh2, Hm2, Hwf2.
  assert (Hh : histogram (after r2) = histogram h).
  { rewrite Hh2, Hc1, Hh1. unfold store. rewrite list_insert_insert_eq.
    apply list_insert_id. unfold cell.
    destruct (lookup_lt_is_Some_2 _ _ Hih) as [x ->]. simpl. f_equal. lia. }
  unfold returned. rewrite Hr1, Hr2.
  split; [done|]. split; [done|]. split; [|split; [done|split]].
  - rewrite !at_ok by lia. simpl. by rewrite Hh.
  - destruct Hwf2 as (_ & _ & _ & ->), Hwf as (_ & _ & _ & ->). by rewrite Hh.
  - intros k Hk Hmk.
    change (Return (mass (after r2)) = Return (mass h) :> Outcome float). f_equal.
    rewrite Hm2, Hm1, Hmk, fsub_one, fadd_one by lia. f_equal. lia.
Qed.

(** X15. The mass stops counting at [2^24]: after [n] calls of
    [addOne(i)] on a freshly constructed histogram, with [n] from [2^24]
    and below [2^31], [at(i)] is [n], the sum of the counts is [n], and
    [getMass()] is [2^24]. *)
Theorem mass_saturates b i n :
  (0 <= i < b)%Z -> (2 ^ 24 <= n < 2 ^ 31)%Z ->
  let h := final fastlog2 uninit_int uninit_float (after (construct b))
             (replicate (Z.to_nat n) (AddOne i)) in
  outcome (at_ i h) = Return n /\
  sum_at h = n /\
  outcome (getMass h) = Return (float_of_int (2 ^ 24)).
Proof.
  intros Hi [Hn _] h.
  destruct (addOne_repeat_saturated fastlog2 uninit_int uninit_float b i n Hi Hn)
    as (_ & _ & Hat & Hsum & Hm).
  split; [exact Hat|]. split; [exact Hsum|exact Hm].
Qed.

End HistogramExtras.

(* ================================================================= *)
(** * The further properties at concrete inputs *)



Lemma copy_exact_witness :
  let other := mkHistogram 2 [3; 1]%Z (float_of_int 4)
                 [float_of_int 5; float_of_int 6] (float_of_int 9) in
  let h := mkHistogram 3 [1; 1; 1]%Z (float_of_int 3)
             [float_of_int 0; float_of_int 0; float_of_int 0] (float_of_int 3) in
  copy_construct junk_int junk_float other = mkRun (Return tt) other [] /\
  operator_assign junk_int junk_float other false h = mkRun (Return tt) other [] /\
  operator_assign junk_int junk_float h true h = mkRun (Return tt) h [].
Proof.
  intros other h.
  assert (Ho : sized other) by (repeat split; simpl; lia).
  assert (Hh : sized h) by (repeat split; simpl; lia).
  exact (copy_exact junk_int junk_float other h Ho Hh).
Defined.

Lemma reachable_representation_witness :
  let h := final fastlog2_approx junk_int junk_float
             (after (construct junk_int junk_float 3)) [AddOne 0; AddOne 2; AddOne 2; SubOne 0] in
  (0 <= value 0%Z (getSize h))%Z /\
  length (histogram h) = Z.to_nat (bins h) /\
  length (entropies h) = Z.to_nat (bins h) /\
  (forall i, (0 <= i < bins h)%Z ->
     exists c, outcome (at_ i h) = Return c /\
       cell (float_of_int 0) (entropies h) i
       = if decide (c = 0%Z) then float_of_int 0
         else ENTROPY_int_value fastlog2_approx c).
Proof.
  intros h.
  exact (reachable_representation fastlog2_approx junk_int junk_float h
           (reachable_final _ _ _ _ _ (reachable_fresh _ _ _ 3 ltac:(lia)))).
Defined.

Lemma resize_positive_fresh_witness :
  let h := mkHistogram 2 [3; 1]%Z (float_of_int 4)
             [float_of_int 5; float_of_int 6] (float_of_int 9) in
  resize junk_int junk_float 3 h = construct junk_int junk_float 3 /\
  outcome (getMass (after (resize junk_int junk_float 3 h))) = Return (float_of_int 0) /\
  outcome (getEntropy (after (resize junk_int junk_float 3 h))) = Return (float_of_int 0).
Proof.
  intros h.
  destruct (resize_positive_fresh junk_int junk_float h 3 ltac:(lia))
    as (Hfresh & _ & _ & _ & Hmass & Hentropy).
  exact (conj Hfresh (conj Hmass Hentropy)).
Defined.

Lemma reset_fresh_witness :
  let h := after (resize junk_int junk_float 0
             (final fastlog2_approx junk_int junk_float
                (after (construct junk_int junk_float 2)) [AddOne 0; AddOne 1])) in
  outcome (getMass h) = Return (float_of_int 2) /\
  reset h = mkRun (Return tt) (after (construct junk_int junk_float (bins h))) [].
Proof.
  intros h. split; [vm_compute; reflexivity|].
  assert (Hs : sized h) by (vm_compute; repeat split; discriminate).
  exact (reset_fresh junk_int junk_float h Hs).
Defined.

Lemma size_changes_only_by_resize_witness :
  let h := after (construct junk_int junk_float 2) in
  outcome (getSize (after (call fastlog2_approx junk_int junk_float (AddOne 1) h))) = Return 2%Z /\
  outcome (getSize (after (call fastlog2_approx junk_int junk_float (Resize 5) h))) = Return 5%Z /\
  outcome (getSize (after (call fastlog2_approx junk_int junk_float (Resize (-5)) h))) = Return 2%Z.
Proof.
  intros h.
  pose proof (reachable_fresh fastlog2_approx junk_int junk_float 2 ltac:(lia)) as Hr.
  split; [|split].
  - exact (size_changes_only_by_resize fastlog2_approx junk_int junk_float h (AddOne 1) Hr).
  - exact (size_changes_only_by_resize fastlog2_approx junk_int junk_float h (Resize 5) Hr).
  - exact (size_changes_only_by_resize fastlog2_approx junk_int junk_float h (Resize (-5)) Hr).
Defined.

Lemma subOne_addOne_inverse_witness :
  let h := final fastlog2_approx junk_int junk_float
             (after (construct junk_int junk_float 3)) [AddOne 0; AddOne 1; AddOne 1] in
  let r1 := subOne fastlog2_approx 1 h in
  let r2 := addOne fastlog2_approx 1 (after r1) in
  returned r1 /\ returned r2 /\
  outcome (at_ 1 (after r2)) = outcome (at_ 1 h) /\
  histogram (after r2) = histogram h /\
  entropies (after r2) = entropies h /\
  outcome (getMass (after r2)) = outcome (getMass h).
Proof.
  intros h r1 r2.
  assert (Hi : (0 <= 1 < bins h)%Z) by (vm_compute; intuition discriminate).
  assert (Hat : outcome (at_ 1 h) = Return 2%Z) by (vm_compute; reflexivity).
  assert (Hm : mass h = float_of_int 3) by (vm_compute; reflexivity).
  destruct (subOne_addOne_inverse fastlog2_approx junk_int junk_float h 1 2
              (reachable_final _ _ _ _ _ (reachable_fresh _ _ _ 3 ltac:(lia)))
              Hi Hat ltac:(lia))
    as (H1 & H2 & Hat' & Hh & He & Hmass).
  split; [exact H1|]. split; [exact H2|]. split; [exact Hat'|]. split; [exact Hh|].
  split; [exact He|]. exact (Hmass 3%Z ltac:(lia) Hm).
Defined.

Lemma mass_saturates_witness :
  let h := final fastlog2_approx junk_int junk_float (after (construct junk_int junk_float 2))
             (replicate (Z.to_nat (2 ^ 24 + 5)) (AddOne 1)) in
  outcome (at_ 1 h) = Return (2 ^ 24 + 5)%Z /\
  sum_at h = (2 ^ 24 + 5)%Z /\
  outcome (getMass h) = Return (float_of_int (2 ^ 24)).
Proof.
  exact (mass_saturates fastlog2_approx junk_int junk_float 2 1 (2 ^ 24 + 5)
           ltac:(lia) ltac:(lia)).
Defined.
